(** * spy.py: sparsity-pattern plotter -- model and verified properties

    The script [script/spy.py] reads a [.spy] text file, assigns every
    processor id a hue by walking a binary subdivision of the hue circle,
    and adds one square per nonzero entry to a matplotlib figure.

    Modelling conventions.
    - Python [int] is [Z].  A Python [float] is modelled by the rational
      number it holds, in [Qc], and the float operations are taken without
      rounding.  The conversion of an [int] to a [float] raises
      [OverflowError] from [2 ^ 1024 - 2 ^ 970] on, as in Python.  The
      operations of lines 55-60 round nothing for ids below [2 ^ 52], and
      the additions of lines 87-88 round by less than [2 ^ -22] for row and
      column numbers below [2 ^ 31]; the statements about hues and about
      the place of the squares are made for such ids and entries.
    - [ceil(log(x, 2))] is the exact ceiling of the binary logarithm for
      [x < 2 ^ 29].  From [2 ^ 29] on the rounding of the two logarithms
      and of their quotient decides ([log(2 ** 29, 2)] is
      [29.000000000000004]); there the value is the parameter [log_ceil].
    - Text is [string], one character per code point; the input of [main]
      is the decoded text of the file as the text layer of
      [open(..., 'r')] hands it out, its code points below 256.
    - A raised exception ends the run: [Raise].  The [while] loop that
      skips comments is run with fuel; [Timeout] means the loop was still
      running when the fuel was used up.
    - matplotlib is not part of the script.  [hsv_to_rgb] is a parameter of
      the colour mapper; the figure is a record that stores what [xlim],
      [ylim] and [add_patch] were given. *)

From Stdlib Require Import ZArith QArith Qcanon Qround Lia Lqa.
From Stdlib Require Import String Ascii List Bool.
Import ListNotations.

Open Scope Z_scope.

(* ================================================================= *)
(** ** Outcomes of a run *)

(** The exceptions the script can raise; the first four are Python's
    [ValueError]. *)
Inductive exception : Type :=
| ValueError_int (literal : string)
    (* int(): invalid literal for int() with base 10, or more digits
       than the limit for integer string conversion *)
| ValueError_unpack_few (got : nat)
    (* not enough values to unpack (expected 3, got n) *)
| ValueError_unpack_many
    (* too many values to unpack (expected 3) *)
| ValueError_math_domain
    (* math domain error *)
| OverflowError
    (* int too large to convert to float; integer division result too
       large for a float *)
| ZeroDivisionError.
    (* division by zero *)

Inductive outcome (A : Type) : Type :=
| Ok (a : A)
| Raise (e : exception)
| Timeout.

Arguments Ok {A} a.
Arguments Raise {A} e.
Arguments Timeout {A}.

Definition bind {A B : Type} (x : outcome A) (k : A -> outcome B) : outcome B :=
  match x with
  | Ok a => k a
  | Raise e => Raise e
  | Timeout => Timeout
  end.

Notation "x <- e ;; k" := (bind e (fun x => k))
  (at level 61, e at next level, right associativity).
Notation "' p <- e ;; k" := (bind e (fun v => let p := v in k))
  (at level 61, p pattern, e at next level, right associativity).

Definition raises {A : Type} (x : outcome A) : Prop :=
  exists e, x = Raise e.

Definition succeeds {A : Type} (x : outcome A) : Prop :=
  exists a, x = Ok a.

(* ================================================================= *)
(** ** Floats *)

Definition Z2Qc (z : Z) : Qc := Q2Qc (inject_Z z).

(** Python's [x < y] on floats. *)
Definition Qcltb (x y : Qc) : bool :=
  match (x ?= y)%Qc with
  | Lt => true
  | _ => false
  end.

(** The least integer that no float can hold: halfway between the largest
    float, [2 ^ 1024 - 2 ^ 971], and [2 ^ 1024]. *)
Definition float_limit : Z := 2 ^ 1024 - 2 ^ 970.

(** The conversion of the [int] operand of [+], [-] or [/] when the other
    operand is a float. *)
Definition to_float (n : Z) : outcome Qc :=
  if Z.abs n <? float_limit then Ok (Z2Qc n) else Raise OverflowError.

(** [n + x] for an [int] and a float. *)
Definition float_add (n : Z) (x : Qc) : outcome Qc :=
  n_f <- to_float n ;;
  Ok (n_f + x)%Qc.

(** [a / b] on two [int]s. *)
Definition true_divide (a b : Z) : outcome Qc :=
  if b =? 0 then Raise ZeroDivisionError
  else if Z.abs a <? float_limit * Z.abs b then Ok (Z2Qc a / Z2Qc b)%Qc
  else Raise OverflowError.

(* ================================================================= *)
(** ** The colour mapper (spy.py, lines 39-40 and 51-64) *)

Definition marker_size : Qc := Q2Qc 0.8.
Definition marker_offset : Qc := (Q2Qc 0.5 * (1 - marker_size))%Qc.

Definition triple : Type := (Qc * Qc * Qc)%type.

(** Lines 55-60: the hue handed to [hsv_to_rgb], once the level is known.
    [denumerator / 2] divides two [int]s; [proc - ...] and
    [numerator / denumerator] convert their [int] operand.  The divisor
    [2 ** level] is never zero. *)
Definition hue_at_level (level proc : Z) : outcome Qc :=
  let denumerator := 2 ^ level in
  half <- true_divide denumerator 2 ;;
  proc_f <- to_float proc ;;
  let numerator := (Z2Qc 1 + (proc_f - half) * Z2Qc 2)%Qc in
  denumerator_f <- to_float denumerator ;;
  let color := (numerator / denumerator_f)%Qc in
  let color := (color - Q2Qc 0.5)%Qc in
  let color := if Qcltb color (Q2Qc 0.0) then (color + Q2Qc 1.0)%Qc else color in
  Ok color.

Section ColorMapper.

(** The value of [ceil(log(x, 2))] for [x >= 2 ^ 29], as the logarithm of
    the C library and the float division round it. *)
Variable log_ceil : Z -> N.

(** [matplotlib.colors.hsv_to_rgb], applied to [[h, s, v]]. *)
Variable hsv_to_rgb : triple -> triple.

(** [ceil(log(x, 2))]: [math.log] raises on a non-positive argument.
    Below [2 ^ 29] the result is the least [l] with [x <= 2 ^ l]: the
    quotient of the logarithms is the float [l] at [x = 2 ^ l] and is
    further from an integer than its rounding error elsewhere. *)
Definition ceil_log2 (x : Z) : outcome Z :=
  if x <=? 0 then Raise ValueError_math_domain
  else if x <? 2 ^ 29 then Ok (Z.log2_up x)
  else Ok (Z.of_N (log_ceil x)).

(** Lines 54-60. *)
Definition hue_of_proc (proc : Z) : outcome Qc :=
  level <- ceil_log2 (proc + 1) ;;
  hue_at_level level proc.

Definition color_of_proc (proc : Z) : outcome triple :=
  color <- hue_of_proc proc ;;
  Ok (hsv_to_rgb (color, Z2Qc 1, Z2Qc 1)).

(** Lines 63-64: [for i in range(0, 100): color_of_proc(i)]. *)
Fixpoint warm_up (i : Z) (count : nat) : outcome unit :=
  match count with
  | O => Ok tt
  | S count' => _ <- color_of_proc i ;; warm_up (i + 1) count'
  end.

End ColorMapper.

(* ================================================================= *)
(** ** Text primitives used by the script *)

Module Text.

Open Scope char_scope.
Open Scope string_scope.

Definition LF : ascii := "010".
Definition nl : string := String LF "".

(** [fin.readline()] on the unread rest of the file: the next line with
    its terminator, and what is left.  At end of file the line is [""]. *)
Fixpoint readline (fin : string) : string * string :=
  match fin with
  | "" => ("", "")
  | String c rest =>
      if (c =? LF)%char then (String c "", rest)
      else let '(line, rest') := readline rest in (String c line, rest')
  end.

(** [s.split(sep)] for a one-character separator. *)
Fixpoint split (sep : ascii) (s : string) : list string :=
  match s with
  | "" => [""]
  | String c rest =>
      if (c =? sep)%char then "" :: split sep rest
      else match split sep rest with
           | tok :: toks => String c tok :: toks
           | [] => [String c ""]
           end
  end.

(** The blanks that [int] drops around a literal: tab, LF, VT, FF, CR
    and space, and the two blanks above 127, NEL (133) and the no-break
    space (160). *)
Definition int_space (c : ascii) : bool :=
  let k := nat_of_ascii c in
  ((9 <=? k) && (k <=? 13) || (k =? 32) || (k =? 133) || (k =? 160))%nat.

(** The blanks of [str.split()] and [str.isspace()]: those of [int] and
    FS, GS, RS, US (28 to 31). *)
Definition is_space (c : ascii) : bool :=
  let k := nat_of_ascii c in
  ((9 <=? k) && (k <=? 13) || (28 <=? k) && (k <=? 32)
   || (k =? 133) || (k =? 160))%nat.

Definition is_digit (c : ascii) : bool :=
  let k := nat_of_ascii c in
  ((48 <=? k) && (k <=? 57))%nat.

Definition digit_value (c : ascii) : Z := Z.of_nat (nat_of_ascii c - 48).

Fixpoint lstrip (s : string) : string :=
  match s with
  | "" => ""
  | String c rest => if int_space c then lstrip rest else s
  end.

Fixpoint rstrip (s : string) : string :=
  match s with
  | "" => ""
  | String c rest =>
      match rstrip rest with
      | "" => if int_space c then "" else String c ""
      | rest' => String c rest'
      end
  end.

(** What [int] is left with once the blanks on both sides are dropped. *)
Definition strip (s : string) : string := rstrip (lstrip s).

(** The default limit for integer string conversion: a literal with more
    digits is refused. *)
Definition int_max_str_digits : Z := 4300.

(** Decimal digits, with single underscores allowed between digits.
    [after_digit] tells whether the previous character was a digit,
    [count] is the number of digits read so far. *)
Fixpoint digits (s : string) (acc : Z) (after_digit : bool) (count : Z)
  : option Z :=
  match s with
  | "" =>
      if after_digit && (count <=? int_max_str_digits)%Z then Some acc
      else None
  | String c rest =>
      if is_digit c
      then digits rest (10 * acc + digit_value c) true (count + 1)
      else if (c =? "_")%char then
             if after_digit then digits rest acc false count else None
      else None
  end.

(** The value of a decimal literal: blanks around it are dropped, one
    sign may come first. *)
Definition int_literal (s : string) : option Z :=
  match strip s with
  | "" => None
  | String c rest =>
      if (c =? "+")%char then digits rest 0 false 0
      else if (c =? "-")%char then option_map Z.opp (digits rest 0 false 0)
      else digits (String c rest) 0 false 0
  end.

(** [int(s)]. *)
Definition int (s : string) : outcome Z :=
  match int_literal s with
  | Some z => Ok z
  | None => Raise (ValueError_int s)
  end.

(** [a, b, c = map(int, toks)]: the tokens are converted one by one while
    the targets are filled; a fourth token is still converted before the
    unpacking gives up. *)
Definition unpack3 (toks : list string) : outcome (Z * Z * Z) :=
  match toks with
  | [] => Raise (ValueError_unpack_few 0)
  | t1 :: toks1 =>
      a <- int t1 ;;
      match toks1 with
      | [] => Raise (ValueError_unpack_few 1)
      | t2 :: toks2 =>
          b <- int t2 ;;
          match toks2 with
          | [] => Raise (ValueError_unpack_few 2)
          | t3 :: toks3 =>
              c <- int t3 ;;
              match toks3 with
              | [] => Ok (a, b, c)
              | t4 :: _ => _ <- int t4 ;; Raise ValueError_unpack_many
              end
          end
      end
  end.

(** The whole of [map(int, line.split(' '))] unpacked into three names. *)
Definition parse_triple (line : string) : outcome (Z * Z * Z) :=
  unpack3 (split " " line).

(** Whitespace-separated fields of a line (what [str.split()] returns);
    used to say what a well-formed line is, not used by the script. *)
Fixpoint fields (s : string) : list string :=
  match s with
  | "" => []
  | String c rest =>
      if is_space c then fields rest
      else match rest with
           | "" => [String c ""]
           | String c' _ =>
               if is_space c' then String c "" :: fields rest
               else match fields rest with
                    | tok :: toks => String c tok :: toks
                    | [] => [String c ""]
                    end
           end
  end.

(** All the lines of a text, in reading order, terminators kept. *)
Fixpoint lines (fin : string) : list string :=
  match fin with
  | "" => []
  | String c rest =>
      if (c =? LF)%char then String c "" :: lines rest
      else match lines rest with
           | [] => [String c ""]
           | line :: more => String c line :: more
           end
  end.

(** [sep.join(toks)]. *)
Fixpoint join (sep : ascii) (toks : list string) : string :=
  match toks with
  | [] => ""
  | [tok] => tok
  | tok :: more => tok ++ String sep (join sep more)
  end.

Fixpoint all_space (s : string) : bool :=
  match s with
  | "" => true
  | String c rest => is_space c && all_space rest
  end.

Fixpoint no_space (s : string) : bool :=
  match s with
  | "" => true
  | String c rest => negb (is_space c) && no_space rest
  end.

(** The end of the text or a blank comes next. *)
Definition starts_blank (s : string) : bool :=
  match s with
  | "" => true
  | String c _ => is_space c
  end.

(** A word: at least one character, none of them blank. *)
Definition word (s : string) : bool :=
  match s with
  | "" => false
  | _ => no_space s
  end.

(** A data or dimension line is malformed when it has fewer than three
    whitespace-separated fields or one of its fields is not an integer
    literal.  The line read at end of file, [""], has no field. *)
Definition malformed (line : string) : Prop :=
  (List.length (fields line) < 3)%nat \/
  exists tok, In tok (fields line) /\ int_literal tok = None.

End Text.

(* ================================================================= *)
(** ** The figure *)

Record Rectangle : Type := mkRectangle
  { rect_xy : Qc * Qc;
    rect_width : Qc;
    rect_height : Qc;
    rect_color : triple }.

Record Axes : Type := mkAxes
  { xlim : Z * Z;
    ylim : Z * Z;
    patches : list Rectangle }.

Definition add_patch (ax : Axes) (r : Rectangle) : Axes :=
  {| xlim := xlim ax; ylim := ylim ax; patches := patches ax ++ [r] |}.

(** What a completed run leaves behind: the names [title], [m], [n], [nz]
    of the script, the values taken by [(i, j, p)] in the data loop, in
    order, and the axes that [plt.show()] displays. *)
Record Plot : Type := mkPlot
  { title : string;
    m : Z;
    n : Z;
    nz : Z;
    entries : list (Z * Z * Z);
    ax : Axes }.

(* ================================================================= *)
(** ** The main block (spy.py, lines 66-91) *)

Section Script.

Variable log_ceil : Z -> N.
Variable hsv_to_rgb : triple -> triple.

Import Text.

(** Line 68: [len(line) == 0 or line[0] == '#']. *)
Definition skipped (line : string) : bool :=
  match line with
  | EmptyString => true
  | String c _ => (c =? "#")%char
  end.

(** Lines 67-69.  One unit of fuel per turn of the loop. *)
Fixpoint skip_comments (fuel : nat) (line fin : string)
  : outcome (string * string) :=
  if skipped line then
    match fuel with
    | O => Timeout
    | S fuel' =>
        let '(line', fin') := readline fin in
        skip_comments fuel' line' fin'
    end
  else Ok (line, fin).

(** The square of the entry in row [i] and column [j]: the rectangle
    that lines 87-89 build when the two additions go through. *)
Definition square (i j : Z) (color : triple) : Rectangle :=
  {| rect_xy := ((Z2Qc j + marker_offset)%Qc, (Z2Qc i + marker_offset)%Qc);
     rect_width := marker_size;
     rect_height := marker_size;
     rect_color := color |}.

(** The square that the loop adds for the entry [(i, j, p)]. *)
Definition drawn (entry : Z * Z * Z) (r : Rectangle) : Prop :=
  let '(i, j, p) := entry in
  exists color,
    color_of_proc log_ceil hsv_to_rgb p = Ok color /\ r = square i j color.

(** Lines 85-89, for the [count] turns that are left.  The arguments of
    [Rectangle] are evaluated in order: [j + marker_offset], then
    [i + marker_offset], then [color_of_proc(p)]. *)
Fixpoint data_loop (count : nat) (fin : string) (ax : Axes)
         (seen : list (Z * Z * Z))
  : outcome (Axes * list (Z * Z * Z)) :=
  match count with
  | O => Ok (ax, seen)
  | S count' =>
      let '(line, fin') := readline fin in
      '(i, j, p) <- parse_triple line ;;
      x <- float_add j marker_offset ;;
      y <- float_add i marker_offset ;;
      color <- color_of_proc log_ceil hsv_to_rgb p ;;
      let r := mkRectangle (x, y) marker_size marker_size color in
      data_loop count' fin' (add_patch ax r) (seen ++ [(i, j, p)])
  end.

(** Lines 66-91, given the content of the file. *)
Definition read_and_plot (fuel : nat) (spy_file : string) : outcome Plot :=
  let '(line, fin) := readline spy_file in
  '(line, fin) <- skip_comments fuel line fin ;;
  let title := line in
  let '(dims, fin) := readline fin in
  '(m, n, nz) <- parse_triple dims ;;
  let ax := {| xlim := (1, n); ylim := (m, 1); patches := [] |} in
  '(ax, seen) <- data_loop (Z.to_nat nz) fin ax [] ;;
  Ok {| title := title; m := m; n := n; nz := nz;
        entries := seen; ax := ax |}.

(** The script from line 63 on. *)
Definition main (fuel : nat) (spy_file : string) : outcome Plot :=
  _ <- warm_up log_ceil hsv_to_rgb 0 100 ;;
  read_and_plot fuel spy_file.

End Script.

(* ================================================================= *)
(** ** The standard hexcone conversion

    The conversion the plotting library implements for one [h, s, v]
    triple of the unit cube; it is the instance at which the statements
    about [hsv_to_rgb] are exercised. *)

Definition hsv_to_rgb_hexcone (hsv : triple) : triple :=
  let '(h, s, v) := hsv in
  let i := Qfloor (h * Z2Qc 6)%Qc in
  let f := (h * Z2Qc 6 - Z2Qc i)%Qc in
  let p := (v * (1 - s))%Qc in
  let q := (v * (1 - s * f))%Qc in
  let t := (v * (1 - s * (1 - f)))%Qc in
  if Qc_eq_bool s 0 then (v, v, v)
  else match i mod 6 with
       | 0 => (v, t, p)
       | 1 => (q, v, p)
       | 2 => (p, v, t)
       | 3 => (p, q, v)
       | 4 => (t, p, v)
       | _ => (v, p, q)
       end.

(* ================================================================= *)
(** ** Sample inputs *)

Module Samples.
Import Text.
Open Scope string_scope.

Definition end_to_end : string :=
  "# test" ++ nl ++ "Title" ++ nl ++ "3 3 2" ++ nl ++
  "1 1 0" ++ nl ++ "2 2 1" ++ nl.

Definition blank_before_title : string :=
  nl ++ "Title" ++ nl ++ "3 3 0" ++ nl.

Definition four_dims : string :=
  "Title" ++ nl ++ "3 3 2 4" ++ nl ++ "1 1 0" ++ nl ++ "2 2 1" ++ nl.

Definition only_comments : string :=
  "# a matrix" ++ nl ++ "# nothing else" ++ nl.

Definition short_data : string :=
  "Title" ++ nl ++ "4 4 5" ++ nl ++
  "1 1 0" ++ nl ++ "2 2 1" ++ nl ++ "3 3 2" ++ nl.

(** One entry, in row 1 and column [2 ^ 1024], for processor 0. *)
Definition far_column_entry : string :=
  "1 179769313486231590772930519078902473361797697894230657273430081157732675805500963132708477322407536021120113879871393357658789768814416622492847430639474124377767893424865485276302219601246094119453082952085005768838150682342462881473913110540827237163350510684586298239947245938479716304835356329624224137216 0"
  ++ nl.

Definition far_column : string :=
  "Title" ++ nl ++ "1 1 1" ++ nl ++ far_column_entry.

End Samples.

(* ================================================================= *)
(** ** The hue as the specification words it *)

Module Spec.

(** [ceil(log2 x)] for [x >= 1]: the least [l >= 0] with [x <= 2 ^ l],
    found by counting up from [l]. *)
Fixpoint least_exponent (fuel : nat) (l x : Z) : Z :=
  match fuel with
  | O => l
  | S fuel' => if x <=? 2 ^ l then l else least_exponent fuel' (l + 1) x
  end.

Definition level (proc : Z) : Z :=
  least_exponent (Z.to_nat (proc + 1)) 0 (proc + 1).

Definition denominator (proc : Z) : Z := 2 ^ level proc.

Definition numerator (proc : Z) : Qc :=
  (Z2Qc 1 + (Z2Qc proc - Z2Qc (denominator proc) / Z2Qc 2) * Z2Qc 2)%Qc.

Definition raw_fraction (proc : Z) : Qc :=
  (numerator proc / Z2Qc (denominator proc))%Qc.

Definition hue (proc : Z) : Qc :=
  let hue := (raw_fraction proc - Q2Qc 0.5)%Qc in
  if Qcltb hue 0 then (hue + Q2Qc 1.0)%Qc else hue.

End Spec.

(** A colour is valid when its three channels lie in [[0, 1]]. *)
Definition unit_channel (x : Qc) : Prop := (0 <= x /\ x <= 1)%Qc.

Definition valid_rgb (rgb : triple) : Prop :=
  let '(r, g, b) := rgb in
  unit_channel r /\ unit_channel g /\ unit_channel b.

(* ================================================================= *)
(** ** Quantities used in the proofs *)

(** The hue of lines 55-60 at a given level, when no conversion
    overflows. *)
Definition wrapped_hue (level proc : Z) : Qc :=
  let denumerator := Z2Qc (2 ^ level) in
  let numerator :=
    (Z2Qc 1 + (Z2Qc proc - denumerator / Z2Qc 2) * Z2Qc 2)%Qc in
  let color := (numerator / denumerator - Q2Qc 0.5)%Qc in
  if Qcltb color (Q2Qc 0.0) then (color + Q2Qc 1.0)%Qc else color.

(** The raw fraction of [proc] is [raw_numerator proc / 2 ^ level]; its
    wrapped hue is [hue_numerator proc / (2 * 2 ^ level)]. *)
Definition raw_numerator (proc : Z) : Z :=
  2 * proc + 1 - 2 ^ Z.log2_up (proc + 1).

Definition hue_numerator (proc : Z) : Z :=
  let d := 2 ^ Z.log2_up (proc + 1) in
  let r := raw_numerator proc in
  if 2 * r <? d then 2 * r + d else 2 * r - d.

(** The colour of sector [i] at offset [f] into the sector. *)
Definition sector_rgb (i : Z) (f : Qc) : triple :=
  match i with
  | 0 => (1, f, 0)%Qc
  | 1 => (1 - f, 1, 0)%Qc
  | 2 => (0, 1, f)%Qc
  | 3 => (0, 1 - f, 1)%Qc
  | 4 => (f, 0, 1)%Qc
  | _ => (1, 0, 1 - f)%Qc
  end.


(* ================================================================= *)
(** ** Further notions used in the statements *)

(** An instance of [log_ceil] on which the model is run in the examples:
    30 at [2 ^ 29], where the quotient of the logarithms is
    [29.000000000000004], and the exact ceiling elsewhere, which is what
    the script gets at [2 ^ 30]. *)
Definition log_ceil_sample (x : Z) : N :=
  if x =? 2 ^ 29 then 30%N else Z.to_N (Z.log2_up x).

(** The ids that the script places exactly: their level is the exact
    ceiling of the logarithm, and they lie below [2 ^ 52], where the float
    operations of lines 55-60 round nothing.  Every id below [2 ^ 29 - 1]
    is one of them. *)
Definition exactly_placed (log_ceil : Z -> N) (proc : Z) : Prop :=
  0 <= proc < 2 ^ 52 /\
  ceil_log2 log_ceil (proc + 1) = Ok (Z.log2_up (proc + 1)).

(** No occurrence of the character [c] in [s]. *)
Fixpoint no_char (c : ascii) (s : string) : bool :=
  match s with
  | EmptyString => true
  | String c' rest => negb (c' =? c)%char && no_char c rest
  end.

(** [toks] with [u] glued to the end of its last token. *)
Fixpoint append_last (toks : list string) (u : string) : list string :=
  match toks with
  | [] => []
  | [tok] => [(tok ++ u)%string]
  | tok :: more => tok :: append_last more u
  end.

(** Only blanks that [int] drops. *)
Fixpoint all_int_space (s : string) : bool :=
  match s with
  | EmptyString => true
  | String c rest => Text.int_space c && all_int_space rest
  end.

(** Only decimal digits. *)
Fixpoint all_digits (s : string) : bool :=
  match s with
  | EmptyString => true
  | String c rest => Text.is_digit c && all_digits rest
  end.

(** A text in which every line has its line feed: it is empty or its last
    character is a line feed. *)
Fixpoint terminated (s : string) : bool :=
  match s with
  | EmptyString => true
  | String c EmptyString => (c =? Text.LF)%char
  | String _ rest => terminated rest
  end.

(** The point [(x, y)] lies on the rectangle [r], border included. *)
Definition covers (r : Rectangle) (x y : Qc) : Prop :=
  (fst (rect_xy r) <= x /\ x <= fst (rect_xy r) + rect_width r /\
   snd (rect_xy r) <= y /\ y <= snd (rect_xy r) + rect_height r)%Qc.

(* ================================================================= *)
(** * Properties *)

(* ================================================================= *)
(** ** Exact rationals *)

Section QcFacts.

Local Open Scope Qc_scope.

Lemma this_Q2Qc (q : Q) : (this (Q2Qc q) == q)%Q.
Proof. apply Qred_correct. Qed.

Lemma this_plus (x y : Qc) : (this (x + y) == this x + this y)%Q.
Proof. apply Qred_correct. Qed.

Lemma this_mult (x y : Qc) : (this (x * y) == this x * this y)%Q.
Proof. apply Qred_correct. Qed.

Lemma this_opp (x : Qc) : (this (- x) == - this x)%Q.
Proof. apply Qred_correct. Qed.

Lemma this_minus (x y : Qc) : (this (x - y) == this x - this y)%Q.
Proof. unfold Qcminus. rewrite this_plus, this_opp. reflexivity. Qed.

Lemma this_inv (x : Qc) : (this (/ x) == / this x)%Q.
Proof. apply Qred_correct. Qed.

Lemma this_div (x y : Qc) : (this (x / y) == this x / this y)%Q.
Proof. unfold Qcdiv. rewrite this_mult, this_inv. reflexivity. Qed.

Lemma this_Z2Qc (z : Z) : (this (Z2Qc z) == inject_Z z)%Q.
Proof. apply this_Q2Qc. Qed.

Lemma Z2Qc_plus (a b : Z) : Z2Qc (a + b) = Z2Qc a + Z2Qc b.
Proof.
  apply Qc_is_canon.
  rewrite this_plus, !this_Z2Qc, inject_Z_plus. reflexivity.
Qed.

Lemma Z2Qc_mult (a b : Z) : Z2Qc (a * b) = Z2Qc a * Z2Qc b.
Proof.
  apply Qc_is_canon.
  rewrite this_mult, !this_Z2Qc, inject_Z_mult. reflexivity.
Qed.

Lemma Z2Qc_opp (a : Z) : Z2Qc (- a) = - Z2Qc a.
Proof.
  apply Qc_is_canon.
  rewrite this_opp, !this_Z2Qc, inject_Z_opp. reflexivity.
Qed.

Lemma Z2Qc_minus (a b : Z) : Z2Qc (a - b) = Z2Qc a - Z2Qc b.
Proof.
  unfold Z.sub, Qcminus. now rewrite Z2Qc_plus, Z2Qc_opp.
Qed.

Lemma Z2Qc_inj (a b : Z) : Z2Qc a = Z2Qc b -> a = b.
Proof.
  intros H. apply inject_Z_injective.
  rewrite <- (this_Z2Qc a), <- (this_Z2Qc b), H. reflexivity.
Qed.

Lemma Z2Qc_lt (a b : Z) : (a < b)%Z <-> Z2Qc a < Z2Qc b.
Proof.
  unfold Qclt. rewrite !this_Z2Qc, Zlt_Qlt. reflexivity.
Qed.

Lemma Z2Qc_le (a b : Z) : (a <= b)%Z <-> Z2Qc a <= Z2Qc b.
Proof.
  unfold Qcle. rewrite !this_Z2Qc, Zle_Qle. reflexivity.
Qed.

Lemma Z2Qc_0 : Z2Qc 0 = 0.
Proof. now apply Qc_is_canon. Qed.

Lemma Z2Qc_1 : Z2Qc 1 = 1.
Proof. now apply Qc_is_canon. Qed.

Lemma Z2Qc_2 : Z2Qc 2 = 1 + 1.
Proof. now apply Qc_is_canon. Qed.

Lemma Z2Qc_nonzero (a : Z) : a <> 0%Z -> Z2Qc a <> 0.
Proof.
  intros Ha E. rewrite <- Z2Qc_0 in E. now apply Z2Qc_inj in E.
Qed.

Lemma half_is : Q2Qc 0.5 = / (1 + 1).
Proof. now apply Qc_is_canon. Qed.

Lemma one_is : Q2Qc 1.0 = 1.
Proof. now apply Qc_is_canon. Qed.

Lemma zero_is : Q2Qc 0.0 = 0.
Proof. now apply Qc_is_canon. Qed.

Lemma Qcltb_lt (x y : Qc) : Qcltb x y = true <-> x < y.
Proof.
  unfold Qcltb. rewrite Qclt_alt.
  destruct (x ?= y); split; congruence.
Qed.

Lemma Qcltb_ge (x y : Qc) : Qcltb x y = false <-> y <= x.
Proof.
  split; intros H.
  - apply Qcnot_lt_le. intros L. apply Qcltb_lt in L. congruence.
  - destruct (Qcltb x y) eqn:E; [|reflexivity].
    apply Qcltb_lt in E. now apply Qclt_not_le in E.
Qed.

(** Order between two fractions with the same positive integer
    denominator is the order between the numerators. *)
Lemma frac_lt (a b d : Z) :
  (0 < d)%Z -> (Z2Qc a / Z2Qc d < Z2Qc b / Z2Qc d <-> (a < b)%Z).
Proof.
  intros Hd. unfold Qclt. rewrite !this_div, !this_Z2Qc.
  assert (Hq : (0 < inject_Z d)%Q).
  { change 0%Q with (inject_Z 0). rewrite <- Zlt_Qlt. exact Hd. }
  rewrite (Zlt_Qlt a b). unfold Qdiv.
  apply Qmult_lt_r. now apply Qinv_lt_0_compat.
Qed.

Lemma frac_le (a b d : Z) :
  (0 < d)%Z -> (Z2Qc a / Z2Qc d <= Z2Qc b / Z2Qc d <-> (a <= b)%Z).
Proof.
  intros Hd. split; intros H.
  - apply Z.nlt_ge. intros L. apply (frac_lt b a d Hd) in L.
    now apply Qclt_not_le in L.
  - apply Qcnot_lt_le. intros L. apply (frac_lt b a d Hd) in L. lia.
Qed.

(** Two fractions are equal exactly when they cross-multiply. *)
Lemma frac_eq (a b d e : Z) :
  d <> 0%Z -> e <> 0%Z ->
  Z2Qc a / Z2Qc d = Z2Qc b / Z2Qc e -> (a * e = b * d)%Z.
Proof.
  intros Hd He H. apply Z2Qc_inj. rewrite !Z2Qc_mult.
  assert (Hd' := Z2Qc_nonzero d Hd). assert (He' := Z2Qc_nonzero e He).
  transitivity (Z2Qc a / Z2Qc d * (Z2Qc d * Z2Qc e)); [field; assumption|].
  rewrite H. field; assumption.
Qed.

End QcFacts.

(* ================================================================= *)
(** ** Levels of the binary tree *)

Section Levels.

(** [Z.log2_up] is the ceiling of the binary logarithm. *)
Lemma log2_up_least (x : Z) :
  1 <= x ->
  0 <= Z.log2_up x /\ x <= 2 ^ Z.log2_up x /\
  (forall l, 0 <= l -> x <= 2 ^ l -> Z.log2_up x <= l).
Proof.
  intros Hx. split; [apply Z.log2_up_nonneg|].
  destruct (Z.eq_dec x 1) as [->|Hne].
  - rewrite Z.log2_up_1. split; [reflexivity|]. intros l Hl _. exact Hl.
  - destruct (Z.log2_up_spec x) as [Hlo Hhi]; [lia|].
    split; [exact Hhi|]. intros l Hl Hxl.
    destruct (Z_lt_le_dec l (Z.log2_up x)) as [Hlt|]; [exfalso|assumption].
    assert (2 ^ l <= 2 ^ Z.pred (Z.log2_up x)) by (apply Z.pow_le_mono_r; lia).
    lia.
Qed.

(** Id 0 sits at level 0; the ids of level [l >= 1] are
    [2 ^ (l - 1) .. 2 ^ l - 1]. *)
Lemma level_range (proc : Z) :
  0 <= proc ->
  let l := Z.log2_up (proc + 1) in
  (proc = 0 -> l = 0) /\
  (1 <= proc -> 1 <= l /\ 2 ^ (l - 1) <= proc <= 2 ^ l - 1).
Proof.
  intros Hp l. split.
  - intros ->. reflexivity.
  - intros H1. destruct (Z.log2_up_spec (proc + 1)) as [Hlo Hhi]; [lia|].
    fold l in Hlo, Hhi.
    assert (Hl : 1 <= l).
    { destruct (Z_lt_le_dec l 1) as [Hlt|]; [exfalso|assumption].
      assert (0 <= l) by apply Z.log2_up_nonneg.
      assert (l = 0) by lia. rewrite H0 in Hhi. simpl in Hhi. lia. }
    replace (Z.pred l) with (l - 1) in Hlo by lia. lia.
Qed.

Lemma level_unique (proc l : Z) :
  1 <= l -> 2 ^ (l - 1) <= proc <= 2 ^ l - 1 -> Z.log2_up (proc + 1) = l.
Proof.
  intros Hl [Hlo Hhi].
  assert (Hp : 1 <= proc) by (assert (0 < 2 ^ (l - 1)) by (apply Z.pow_pos_nonneg; lia); lia).
  destruct (log2_up_least (proc + 1)) as (_ & _ & Hleast); [lia|].
  destruct (level_range proc) as [_ Hr]; [lia|].
  destruct (Hr Hp) as (Hl' & Hlo' & Hhi').
  assert (Z.log2_up (proc + 1) <= l) by (apply Hleast; lia).
  destruct (Z.eq_dec (Z.log2_up (proc + 1)) l) as [|Hne]; [assumption|exfalso].
  assert (2 ^ Z.log2_up (proc + 1) <= 2 ^ (l - 1)) by (apply Z.pow_le_mono_r; lia).
  lia.
Qed.

Lemma least_exponent_spec (fuel : nat) (l x : Z) :
  0 <= l ->
  (forall l', 0 <= l' < l -> 2 ^ l' < x) ->
  x <= 2 ^ (l + Z.of_nat fuel) ->
  let r := Spec.least_exponent fuel l x in
  0 <= r /\ x <= 2 ^ r /\ (forall l', 0 <= l' < r -> 2 ^ l' < x).
Proof.
  revert l. induction fuel as [|fuel IH]; intros l Hl Hbelow Hfuel; cbn [Spec.least_exponent].
  - rewrite Z.add_0_r in Hfuel. auto.
  - destruct (x <=? 2 ^ l) eqn:E.
    + apply Z.leb_le in E. auto.
    + apply Z.leb_gt in E. apply IH; [lia| |].
      * intros l' Hl'. destruct (Z.eq_dec l' l) as [->|]; [assumption|].
        apply Hbelow. lia.
      * replace (l + 1 + Z.of_nat fuel) with (l + Z.of_nat (S fuel)) by lia.
        exact Hfuel.
Qed.

(** The level of the specification is the level the script computes. *)
Lemma spec_level_eq (proc : Z) :
  0 <= proc -> Spec.level proc = Z.log2_up (proc + 1).
Proof.
  intros Hp. unfold Spec.level.
  destruct (least_exponent_spec (Z.to_nat (proc + 1)) 0 (proc + 1))
    as (Hr0 & Hr1 & Hr2); [lia | intros; lia | |].
  { rewrite Z.add_0_l, Z2Nat.id by lia.
    apply Z.lt_le_incl, Z.pow_gt_lin_r; lia. }
  destruct (log2_up_least (proc + 1)) as (Hu0 & Hu1 & Hu2); [lia|].
  set (r := Spec.least_exponent _ _ _) in *.
  set (u := Z.log2_up (proc + 1)) in *.
  assert (u <= r) by (apply Hu2; assumption).
  destruct (Z.eq_dec r u) as [|Hne]; [assumption|exfalso].
  assert (2 ^ u < proc + 1) by (apply Hr2; lia). lia.
Qed.

End Levels.

(* ================================================================= *)
(** ** Conversions to float *)

Section FloatFacts.

Local Open Scope Qc_scope.

Lemma float_limit_above : (2 ^ 1023 < float_limit)%Z.
Proof. reflexivity. Qed.

Lemma pow2_below_limit (l : Z) : (0 <= l <= 1023)%Z -> (2 ^ l < float_limit)%Z.
Proof.
  intros Hl. pose proof float_limit_above as F.
  assert (2 ^ l <= 2 ^ 1023)%Z by (apply Z.pow_le_mono_r; lia).
  lia.
Qed.

Lemma to_float_ok (n : Z) :
  (Z.abs n < float_limit)%Z -> to_float n = Ok (Z2Qc n).
Proof. intros H. unfold to_float. apply Z.ltb_lt in H. now rewrite H. Qed.

Lemma to_float_overflow (n : Z) :
  (float_limit <= Z.abs n)%Z -> to_float n = Raise OverflowError.
Proof. intros H. unfold to_float. apply Z.ltb_ge in H. now rewrite H. Qed.

Lemma to_float_cases (n : Z) :
  to_float n = Ok (Z2Qc n) \/ to_float n = Raise OverflowError.
Proof. unfold to_float. destruct (Z.abs n <? float_limit)%Z; auto. Qed.

Lemma float_add_ok (n : Z) (x : Qc) :
  (Z.abs n < float_limit)%Z -> float_add n x = Ok (Z2Qc n + x).
Proof. intros H. unfold float_add. now rewrite to_float_ok. Qed.

Lemma float_add_overflow (n : Z) (x : Qc) :
  (float_limit <= Z.abs n)%Z -> float_add n x = Raise OverflowError.
Proof. intros H. unfold float_add. now rewrite to_float_overflow. Qed.

Lemma float_add_cases (n : Z) (x : Qc) :
  float_add n x = Ok (Z2Qc n + x) \/ float_add n x = Raise OverflowError.
Proof. unfold float_add. destruct (to_float_cases n) as [-> | ->]; auto. Qed.

(** Row and column numbers below [2 ^ 31] are far from the limit. *)
Lemma index_below_limit (i : Z) :
  (Z.abs i < 2 ^ 31)%Z -> (Z.abs i < float_limit)%Z.
Proof.
  intros H. assert (2 ^ 31 < float_limit)%Z by (apply pow2_below_limit; lia).
  lia.
Qed.

Lemma halve_ok (l : Z) :
  (0 <= l <= 1023)%Z -> true_divide (2 ^ l) 2 = Ok (Z2Qc (2 ^ l) / Z2Qc 2).
Proof.
  intros Hl. unfold true_divide. change (2 =? 0)%Z with false. cbv iota.
  pose proof (pow2_below_limit l Hl) as B.
  assert (P : (0 < 2 ^ l)%Z) by (apply Z.pow_pos_nonneg; lia).
  replace (Z.abs (2 ^ l) <? float_limit * Z.abs 2)%Z with true; [reflexivity|].
  symmetry. apply Z.ltb_lt. rewrite Z.abs_eq by lia.
  change (Z.abs 2) with 2%Z. lia.
Qed.

(** With a level up to 1023 and an id below the limit no conversion
    overflows. *)
Lemma hue_at_level_exact (level proc : Z) :
  (0 <= level <= 1023)%Z -> (Z.abs proc < float_limit)%Z ->
  hue_at_level level proc = Ok (wrapped_hue level proc).
Proof.
  intros Hl Hp. unfold hue_at_level.
  rewrite (halve_ok level Hl). cbn [bind].
  rewrite (to_float_ok proc Hp). cbn [bind].
  rewrite (to_float_ok (2 ^ level)); [reflexivity|].
  pose proof (pow2_below_limit level Hl) as B.
  assert (P : (0 < 2 ^ level)%Z) by (apply Z.pow_pos_nonneg; lia).
  rewrite Z.abs_eq by lia. exact B.
Qed.

(** An id from the limit on overflows, at the division by two when the
    level is above 1024 and at the subtraction otherwise. *)
Lemma hue_at_level_overflow (level proc : Z) :
  (float_limit <= proc)%Z -> hue_at_level level proc = Raise OverflowError.
Proof.
  intros Hp. unfold hue_at_level, true_divide.
  change (2 =? 0)%Z with false. cbv iota.
  destruct (Z.abs (2 ^ level) <? float_limit * Z.abs 2)%Z; cbn [bind];
    [|reflexivity].
  rewrite to_float_overflow; [reflexivity | lia].
Qed.

Lemma hue_at_level_not_timeout (level proc : Z) :
  hue_at_level level proc <> Timeout.
Proof.
  unfold hue_at_level, true_divide, to_float.
  change (2 =? 0)%Z with false. cbv iota.
  destruct (Z.abs (2 ^ level) <? float_limit * Z.abs 2)%Z; cbn [bind];
    [|discriminate].
  destruct (Z.abs proc <? float_limit)%Z; cbn [bind]; [|discriminate].
  destruct (Z.abs (2 ^ level) <? float_limit)%Z; cbn [bind]; discriminate.
Qed.

End FloatFacts.

(* ================================================================= *)
(** ** The hue in closed form *)

Section Hue.

Local Open Scope Qc_scope.

Variable log_ceil : Z -> N.

Lemma pow2_level_pos (proc : Z) : (0 < 2 ^ Z.log2_up (proc + 1))%Z.
Proof. apply Z.pow_pos_nonneg; [lia | apply Z.log2_up_nonneg]. Qed.

Lemma raw_numerator_range (proc : Z) :
  (0 <= proc)%Z ->
  (0 <= raw_numerator proc < 2 ^ Z.log2_up (proc + 1))%Z.
Proof.
  intros Hp. unfold raw_numerator.
  destruct (level_range proc Hp) as [H0 H1].
  destruct (Z.eq_dec proc 0) as [->|Hne].
  - simpl. lia.
  - destruct H1 as (Hl & Hlo & Hhi); [lia|].
    assert (E : (2 ^ Z.log2_up (proc + 1) = 2 * 2 ^ (Z.log2_up (proc + 1) - 1))%Z).
    { rewrite <- Z.pow_succ_r by lia. f_equal. lia. }
    lia.
Qed.

Lemma hue_numerator_range (proc : Z) :
  (0 <= proc)%Z ->
  (0 <= hue_numerator proc < 2 * 2 ^ Z.log2_up (proc + 1))%Z.
Proof.
  intros Hp. pose proof (raw_numerator_range proc Hp) as Hr.
  unfold hue_numerator.
  destruct (2 * raw_numerator proc <? 2 ^ Z.log2_up (proc + 1))%Z eqn:E;
    [apply Z.ltb_lt in E | apply Z.ltb_ge in E]; lia.
Qed.

(** Below [2 ^ 29] the level is the exact ceiling. *)
Lemma ceil_log2_exact (x : Z) :
  (0 < x < 2 ^ 29)%Z -> ceil_log2 log_ceil x = Ok (Z.log2_up x).
Proof.
  intros [H0 H1]. unfold ceil_log2.
  replace (x <=? 0)%Z with false by (symmetry; apply Z.leb_gt; lia).
  replace (x <? 2 ^ 29)%Z with true by (symmetry; apply Z.ltb_lt; lia).
  reflexivity.
Qed.

Lemma small_exactly_placed (proc : Z) :
  (0 <= proc < 2 ^ 29 - 1)%Z -> exactly_placed log_ceil proc.
Proof.
  intros H. assert (2 ^ 29 - 1 < 2 ^ 52)%Z by reflexivity.
  split; [lia | apply ceil_log2_exact; lia].
Qed.

Lemma placed_level (proc : Z) :
  (0 <= proc < 2 ^ 52)%Z -> (0 <= Z.log2_up (proc + 1) <= 52)%Z.
Proof.
  intros H. split; [apply Z.log2_up_nonneg|].
  apply Z.log2_up_le_pow2; lia.
Qed.

(** For an id that is exactly placed nothing overflows. *)
Lemma hue_of_proc_exact (proc : Z) :
  exactly_placed log_ceil proc ->
  hue_of_proc log_ceil proc = Ok (wrapped_hue (Z.log2_up (proc + 1)) proc).
Proof.
  intros [Hp L]. unfold hue_of_proc. rewrite L. cbn [bind].
  pose proof (placed_level proc Hp) as B.
  assert (F : (2 ^ 52 < float_limit)%Z) by (apply pow2_below_limit; lia).
  apply hue_at_level_exact; lia.
Qed.

(** From the limit on the mapper raises, whatever the level. *)
Lemma hue_of_proc_overflow (proc : Z) :
  (float_limit <= proc)%Z -> hue_of_proc log_ceil proc = Raise OverflowError.
Proof.
  intros Hp. pose proof float_limit_above as F.
  assert (P : (0 < 2 ^ 1023)%Z) by (apply Z.pow_pos_nonneg; lia).
  unfold hue_of_proc, ceil_log2.
  replace (proc + 1 <=? 0)%Z with false by (symmetry; apply Z.leb_gt; lia).
  destruct (proc + 1 <? 2 ^ 29)%Z; cbn [bind]; now apply hue_at_level_overflow.
Qed.

Lemma hue_of_proc_negative (proc : Z) :
  (proc < 0)%Z -> hue_of_proc log_ceil proc = Raise ValueError_math_domain.
Proof.
  intros Hp. unfold hue_of_proc, ceil_log2.
  replace (proc + 1 <=? 0)%Z with true by (symmetry; apply Z.leb_le; lia).
  reflexivity.
Qed.

Lemma hue_of_proc_not_timeout (proc : Z) : hue_of_proc log_ceil proc <> Timeout.
Proof.
  unfold hue_of_proc, ceil_log2.
  destruct (proc + 1 <=? 0)%Z; [discriminate|].
  destruct (proc + 1 <? 2 ^ 29)%Z; cbn [bind]; apply hue_at_level_not_timeout.
Qed.

Lemma wrapped_hue_closed_form (proc : Z) :
  (0 <= proc)%Z ->
  wrapped_hue (Z.log2_up (proc + 1)) proc =
    Z2Qc (hue_numerator proc) / Z2Qc (2 * 2 ^ Z.log2_up (proc + 1)).
Proof.
  intros Hp. unfold wrapped_hue. cbv zeta.
  set (d := (2 ^ Z.log2_up (proc + 1))%Z).
  assert (Hd : (0 < d)%Z) by apply pow2_level_pos.
  assert (Hd' : Z2Qc d <> 0) by (apply Z2Qc_nonzero; lia).
  assert (H2 : 1 + 1 <> 0) by (rewrite <- Z2Qc_2; apply Z2Qc_nonzero; lia).
  assert (Hraw : (Z2Qc 1 + (Z2Qc proc - Z2Qc d / Z2Qc 2) * Z2Qc 2) / Z2Qc d - Q2Qc 0.5
                 = Z2Qc (2 * raw_numerator proc - d) / Z2Qc (2 * d)).
  { unfold raw_numerator. fold d.
    rewrite !Z2Qc_minus, !Z2Qc_mult, !Z2Qc_minus, !Z2Qc_plus, !Z2Qc_mult.
    rewrite half_is, Z2Qc_2, Z2Qc_1. field. split; assumption. }
  rewrite Hraw, zero_is, one_is.
  assert (H0 : 0 = Z2Qc 0 / Z2Qc (2 * d)).
  { rewrite Z2Qc_0. field. rewrite Z2Qc_mult, Z2Qc_2.
    intros F. apply Qcmult_integral in F. tauto. }
  unfold hue_numerator. fold d.
  destruct (Qcltb _ 0) eqn:L.
  - apply Qcltb_lt in L. rewrite H0 in L. apply frac_lt in L; [|lia].
    replace (2 * raw_numerator proc <? d)%Z with true by (symmetry; apply Z.ltb_lt; lia).
    replace (2 * raw_numerator proc + d)%Z
      with (2 * raw_numerator proc - d + 2 * d)%Z by lia.
    rewrite (Z2Qc_plus _ (2 * d)). field.
    rewrite Z2Qc_mult, Z2Qc_2.
    intros F. apply Qcmult_integral in F. tauto.
  - apply Qcltb_ge in L. rewrite H0 in L. apply frac_le in L; [|lia].
    replace (2 * raw_numerator proc <? d)%Z with false by (symmetry; apply Z.ltb_ge; lia).
    reflexivity.
Qed.

Lemma hue_closed_form (proc : Z) :
  exactly_placed log_ceil proc ->
  hue_of_proc log_ceil proc =
    Ok (Z2Qc (hue_numerator proc) / Z2Qc (2 * 2 ^ Z.log2_up (proc + 1))).
Proof.
  intros Hp. rewrite (hue_of_proc_exact proc Hp).
  now rewrite wrapped_hue_closed_form by apply Hp.
Qed.

(** The wrapped hue lies in [[0, 1)]. *)
Lemma hue_in_unit_interval (proc : Z) :
  exactly_placed log_ceil proc ->
  exists h, hue_of_proc log_ceil proc = Ok h /\ 0 <= h /\ h < 1.
Proof.
  intros Hp. eexists. split; [apply hue_closed_form; exact Hp|].
  pose proof (hue_numerator_range proc (proj1 (proj1 Hp))) as [Hlo Hhi].
  pose proof (pow2_level_pos proc) as Hd.
  set (d2 := (2 * 2 ^ Z.log2_up (proc + 1))%Z) in *.
  assert (H0 : 0 = Z2Qc 0 / Z2Qc d2).
  { rewrite Z2Qc_0. field. apply Z2Qc_nonzero. lia. }
  assert (H1 : 1 = Z2Qc d2 / Z2Qc d2).
  { field. apply Z2Qc_nonzero. lia. }
  split.
  - rewrite H0. apply frac_le; lia.
  - rewrite H1. apply frac_lt; lia.
Qed.

End Hue.

(* ================================================================= *)
(** ** Distinct ids, distinct hues *)

Section Separation.

Local Open Scope Qc_scope.

Variable log_ceil : Z -> N.

Lemma pow2_level_even (proc : Z) :
  (1 <= proc)%Z ->
  (2 ^ Z.log2_up (proc + 1) = 2 * 2 ^ (Z.log2_up (proc + 1) - 1))%Z.
Proof.
  intros Hp. destruct (level_range proc) as [_ H]; [lia|].
  destruct (H Hp) as (Hl & _).
  rewrite <- Z.pow_succ_r by lia. f_equal. lia.
Qed.

(** From level 1 on the raw numerator is odd and positive. *)
Lemma raw_numerator_odd (proc : Z) :
  (1 <= proc)%Z -> exists k, (0 <= k /\ raw_numerator proc = 2 * k + 1)%Z.
Proof.
  intros Hp. destruct (level_range proc) as [_ H]; [lia|].
  destruct (H Hp) as (Hl & Hlo & Hhi).
  exists (proc - 2 ^ (Z.log2_up (proc + 1) - 1))%Z.
  unfold raw_numerator. rewrite (pow2_level_even proc Hp). lia.
Qed.

Lemma cross_equal_levels (p q : Z) :
  (1 <= p)%Z -> (1 <= q)%Z ->
  (Z.log2_up (p + 1) <= Z.log2_up (q + 1))%Z ->
  (raw_numerator p * 2 ^ Z.log2_up (q + 1)
   = raw_numerator q * 2 ^ Z.log2_up (p + 1))%Z ->
  Z.log2_up (p + 1) = Z.log2_up (q + 1).
Proof.
  intros Hp Hq Hle E.
  set (lp := Z.log2_up (p + 1)) in *. set (lq := Z.log2_up (q + 1)) in *.
  assert (Hlp : (0 <= lp)%Z) by apply Z.log2_up_nonneg.
  destruct (Z.eq_dec lp lq) as [|Hne]; [assumption|exfalso].
  assert (Hsplit : (2 ^ lq = 2 ^ lp * (2 * 2 ^ (lq - lp - 1)))%Z).
  { rewrite <- Z.pow_succ_r by lia. rewrite <- Z.pow_add_r by lia.
    f_equal. lia. }
  destruct (raw_numerator_odd q Hq) as (k & _ & Hk).
  assert (Hpos : (0 < 2 ^ lp)%Z) by (apply Z.pow_pos_nonneg; lia).
  rewrite Hsplit in E.
  assert (E' : (raw_numerator p * (2 * 2 ^ (lq - lp - 1)) = raw_numerator q)%Z).
  { apply Z.mul_reg_r with (p := (2 ^ lp)%Z); [lia|]. rewrite <- E. ring. }
  lia.
Qed.

Lemma raw_cross_injective (p q : Z) :
  (0 <= p)%Z -> (0 <= q)%Z ->
  (raw_numerator p * 2 ^ Z.log2_up (q + 1)
   = raw_numerator q * 2 ^ Z.log2_up (p + 1))%Z ->
  p = q.
Proof.
  intros Hp Hq E.
  pose proof (pow2_level_pos p) as Dp. pose proof (pow2_level_pos q) as Dq.
  destruct (Z.eq_dec p 0) as [P0|P0]; destruct (Z.eq_dec q 0) as [Q0|Q0].
  - congruence.
  - exfalso. subst p. destruct (raw_numerator_odd q) as (k & Hk & Ek); [lia|].
    change (raw_numerator 0) with 0%Z in E. simpl in E. lia.
  - exfalso. subst q. destruct (raw_numerator_odd p) as (k & Hk & Ek); [lia|].
    change (raw_numerator 0) with 0%Z in E. simpl in E. lia.
  - assert (L : Z.log2_up (p + 1) = Z.log2_up (q + 1)).
    { destruct (Z.le_ge_cases (Z.log2_up (p + 1)) (Z.log2_up (q + 1))).
      - apply cross_equal_levels; [lia | lia | assumption | assumption].
      - symmetry. apply cross_equal_levels; [lia | lia | assumption | ].
        symmetry. assumption. }
    rewrite L in E. apply Z.mul_reg_r in E; [|lia].
    unfold raw_numerator in E. rewrite L in E. lia.
Qed.

Lemma hue_numerator_cross (p q : Z) :
  (0 <= p)%Z -> (0 <= q)%Z ->
  (hue_numerator p * (2 * 2 ^ Z.log2_up (q + 1))
   = hue_numerator q * (2 * 2 ^ Z.log2_up (p + 1)))%Z ->
  (raw_numerator p * 2 ^ Z.log2_up (q + 1)
   = raw_numerator q * 2 ^ Z.log2_up (p + 1))%Z.
Proof.
  intros Hp Hq E.
  pose proof (raw_numerator_range p Hp) as Rp.
  pose proof (raw_numerator_range q Hq) as Rq.
  unfold hue_numerator in E.
  set (dp := (2 ^ Z.log2_up (p + 1))%Z) in *.
  set (dq := (2 ^ Z.log2_up (q + 1))%Z) in *.
  set (rp := raw_numerator p) in *. set (rq := raw_numerator q) in *.
  destruct (2 * rp <? dp)%Z eqn:Lp; destruct (2 * rq <? dq)%Z eqn:Lq;
    try apply Z.ltb_lt in Lp; try apply Z.ltb_ge in Lp;
    try apply Z.ltb_lt in Lq; try apply Z.ltb_ge in Lq; nia.
Qed.

Lemma hue_injective (p q : Z) (hp hq : Qc) :
  exactly_placed log_ceil p -> exactly_placed log_ceil q ->
  hue_of_proc log_ceil p = Ok hp -> hue_of_proc log_ceil q = Ok hq ->
  hp = hq -> p = q.
Proof.
  intros Hp Hq Ep Eq E.
  assert (Hp0 : (0 <= p)%Z) by apply Hp. assert (Hq0 : (0 <= q)%Z) by apply Hq.
  rewrite (hue_closed_form log_ceil p Hp) in Ep.
  rewrite (hue_closed_form log_ceil q Hq) in Eq.
  assert (Ep' : Z2Qc (hue_numerator p) / Z2Qc (2 * 2 ^ Z.log2_up (p + 1)) = hp)
    by congruence.
  assert (Eq' : Z2Qc (hue_numerator q) / Z2Qc (2 * 2 ^ Z.log2_up (q + 1)) = hq)
    by congruence.
  rewrite <- Ep', <- Eq' in E.
  pose proof (pow2_level_pos p). pose proof (pow2_level_pos q).
  apply frac_eq in E; try lia.
  apply raw_cross_injective; [lia | lia |].
  apply hue_numerator_cross; [lia | lia | assumption].
Qed.

End Separation.

(* ================================================================= *)
(** ** The hexcone conversion on fully saturated colours *)

Lemma Qc_eq_this (a b : Qc) : a = b -> (this a == this b)%Q.
Proof. intros ->. reflexivity. Qed.

(** Push a goal about [Qc] down to linear arithmetic over [Q]. *)
Ltac qc_push H :=
  repeat first
    [ rewrite this_minus in H | rewrite this_plus in H | rewrite this_mult in H
    | rewrite this_opp in H | rewrite this_Z2Qc in H | rewrite this_Q2Qc in H ].

Ltac qc_linear :=
  unfold unit_channel, Qclt, Qcle in *;
  repeat match goal with
    | H : @eq Qc _ _ |- _ => apply Qc_eq_this in H
    end;
  try apply Qc_is_canon;
  repeat match goal with
    | H : (_ == _)%Q |- _ => progress qc_push H
    | H : (_ < _)%Q |- _ => progress qc_push H
    | H : (_ <= _)%Q |- _ => progress qc_push H
    end;
  repeat first
    [ rewrite this_minus | rewrite this_plus | rewrite this_mult
    | rewrite this_opp | rewrite this_Z2Qc | rewrite this_Q2Qc ];
  unfold inject_Z in *;
  lra.

Section Hexcone.

Local Open Scope Qc_scope.

Lemma hexcone_sector (h : Qc) :
  0 <= h -> h < 1 ->
  exists i f,
    (0 <= i <= 5)%Z /\ 0 <= f /\ f < 1 /\
    h * Z2Qc 6 = Z2Qc i + f /\
    hsv_to_rgb_hexcone (h, Z2Qc 1, Z2Qc 1) = sector_rgb i f.
Proof.
  intros H0 H1.
  set (x := h * Z2Qc 6).
  exists (Qfloor x), (x - Z2Qc (Qfloor x)).
  pose proof (Qfloor_le x) as Flo. pose proof (Qlt_floor x) as Fhi.
  rewrite inject_Z_plus in Fhi.
  assert (Hx0 : 0 <= x) by (subst x; qc_linear).
  assert (Hx6 : x < Z2Qc 6) by (subst x; qc_linear).
  assert (Hi : (0 <= Qfloor x <= 5)%Z).
  { split.
    - change 0%Z with (Qfloor 0). apply Qfloor_resp_le. exact Hx0.
    - apply Z.lt_succ_r, Z.lt_nge. intros G.
      rewrite Zle_Qle in G. unfold Qclt in Hx6. rewrite this_Z2Qc in Hx6.
      change (Z.succ 5) with 6%Z in G.
      apply (Qle_trans _ _ _ G) in Flo. apply (Qle_lt_trans _ _ _ Flo) in Hx6.
      apply Qlt_irrefl in Hx6. exact Hx6. }
  split; [exact Hi|].
  split; [qc_linear|]. split; [qc_linear|]. split; [ring|].
  unfold hsv_to_rgb_hexcone. fold x.
  change (Qc_eq_bool (Z2Qc 1) 0) with false. cbv iota.
  rewrite Z.mod_small by lia.
  set (f := x - Z2Qc (Qfloor x)).
  replace (Z2Qc 1 * (1 - Z2Qc 1)) with 0 by (rewrite Z2Qc_1; ring).
  replace (Z2Qc 1 * (1 - Z2Qc 1 * f)) with (1 - f) by (rewrite Z2Qc_1; ring).
  replace (Z2Qc 1 * (1 - Z2Qc 1 * (1 - f))) with f by (rewrite Z2Qc_1; ring).
  rewrite Z2Qc_1. unfold sector_rgb.
  destruct (Qfloor x) as [|[[|[]|]|[[]|[]|]|]|]; try reflexivity; lia.
Qed.

Lemma sector_rgb_valid (i : Z) (f : Qc) :
  0 <= f -> f < 1 -> valid_rgb (sector_rgb i f).
Proof.
  intros H0 H1.
  assert (U0 : unit_channel 0) by (split; qc_linear).
  assert (U1 : unit_channel 1) by (split; qc_linear).
  assert (Uf : unit_channel f) by (split; qc_linear).
  assert (Ug : unit_channel (1 - f)) by (split; qc_linear).
  unfold sector_rgb.
  destruct i as [|[[|[]|]|[[]|[]|]|]|]; cbn; auto.
Qed.

Lemma triple_eq (a b c a' b' c' : Qc) :
  (a, b, c) = (a', b', c') -> a = a' /\ b = b' /\ c = c'.
Proof. intros H. repeat split; congruence. Qed.

Lemma sector_rgb_injective (i j : Z) (f g : Qc) :
  (0 <= i <= 5)%Z -> (0 <= j <= 5)%Z ->
  0 <= f -> f < 1 -> 0 <= g -> g < 1 ->
  sector_rgb i f = sector_rgb j g -> i = j /\ f = g.
Proof.
  intros Hi Hj F0 F1 G0 G1 E.
  assert (Ci : (i = 0 \/ i = 1 \/ i = 2 \/ i = 3 \/ i = 4 \/ i = 5)%Z) by lia.
  assert (Cj : (j = 0 \/ j = 1 \/ j = 2 \/ j = 3 \/ j = 4 \/ j = 5)%Z) by lia.
  clear Hi Hj.
  destruct Ci as [Ci|[Ci|[Ci|[Ci|[Ci|Ci]]]]]; subst i;
    destruct Cj as [Cj|[Cj|[Cj|[Cj|[Cj|Cj]]]]]; subst j;
    cbn [sector_rgb] in E; apply triple_eq in E; destruct E as (E1 & E2 & E3);
    first [ split; [reflexivity | qc_linear] | exfalso; qc_linear ].
Qed.

(** The conversion keeps fully saturated colours in the unit cube. *)
Lemma hexcone_valid (h : Qc) :
  0 <= h -> h < 1 -> valid_rgb (hsv_to_rgb_hexcone (h, Z2Qc 1, Z2Qc 1)).
Proof.
  intros H0 H1.
  destruct (hexcone_sector h H0 H1) as (i & f & _ & F0 & F1 & _ & ->).
  now apply sector_rgb_valid.
Qed.

(** Different hues in [[0, 1)] give different fully saturated colours. *)
Lemma hexcone_injective (h k : Qc) :
  0 <= h -> h < 1 -> 0 <= k -> k < 1 ->
  hsv_to_rgb_hexcone (h, Z2Qc 1, Z2Qc 1) = hsv_to_rgb_hexcone (k, Z2Qc 1, Z2Qc 1) ->
  h = k.
Proof.
  intros H0 H1 K0 K1 E.
  destruct (hexcone_sector h H0 H1) as (i & f & Hi & F0 & F1 & Eh & Rh).
  destruct (hexcone_sector k K0 K1) as (j & g & Hj & G0 & G1 & Ek & Rk).
  rewrite Rh, Rk in E.
  destruct (sector_rgb_injective i j f g Hi Hj F0 F1 G0 G1 E) as [-> ->].
  rewrite <- Ek in Eh. clear - Eh. qc_linear.
Qed.

End Hexcone.

(* ================================================================= *)
(** ** The colour mapper: the statements *)

Section ColorMapperFacts.

Local Open Scope Qc_scope.

Variable log_ceil : Z -> N.
Variable hsv_to_rgb : triple -> triple.

Lemma spec_hue_wrapped (proc : Z) :
  (0 <= proc)%Z -> Spec.hue proc = wrapped_hue (Z.log2_up (proc + 1)) proc.
Proof.
  intros Hp.
  unfold Spec.hue, Spec.raw_fraction, Spec.numerator, Spec.denominator,
    wrapped_hue.
  rewrite (spec_level_eq proc Hp), zero_is. reflexivity.
Qed.

Lemma hue_follows_spec (proc : Z) :
  exactly_placed log_ceil proc -> hue_of_proc log_ceil proc = Ok (Spec.hue proc).
Proof.
  intros Hp. rewrite (hue_of_proc_exact log_ceil proc Hp).
  now rewrite spec_hue_wrapped by apply Hp.
Qed.

Lemma spec_hue_0 : Spec.hue 0 = Q2Qc 0.5.
Proof. apply Qc_is_canon. reflexivity. Qed.

Lemma color_of_proc_overflow (proc : Z) :
  (float_limit <= proc)%Z ->
  color_of_proc log_ceil hsv_to_rgb proc = Raise OverflowError.
Proof.
  intros Hp. unfold color_of_proc.
  now rewrite (hue_of_proc_overflow log_ceil proc Hp).
Qed.

(** C1, for the ids that the script places exactly.  For every id below
    [2 ^ 52] whose level [ceil(log(proc + 1, 2))] comes out as the exact
    ceiling of the logarithm, as it does for every id from 0 to
    [2 ^ 29 - 2], the colour mapper returns [hsv_to_rgb] of the hue that
    the six steps of the specification compute (level, denominator,
    numerator, raw fraction, shift by one half, wrap), with saturation
    and value 1; for id 0 that hue is one half, so the colour of id 0 is
    [hsv_to_rgb (0.5, 1, 1)]. *)
Theorem color_of_proc_follows_spec (proc : Z) :
  exactly_placed log_ceil proc ->
  color_of_proc log_ceil hsv_to_rgb proc
    = Ok (hsv_to_rgb (Spec.hue proc, Z2Qc 1, Z2Qc 1))
  /\ (forall p : Z, (0 <= p < 2 ^ 29 - 1)%Z -> exactly_placed log_ceil p)
  /\ Spec.hue 0 = Q2Qc 0.5
  /\ color_of_proc log_ceil hsv_to_rgb 0
     = Ok (hsv_to_rgb (Q2Qc 0.5, Z2Qc 1, Z2Qc 1)).
Proof.
  intros Hp. unfold color_of_proc. split; [|split; [|split]].
  - rewrite (hue_follows_spec proc Hp). reflexivity.
  - apply small_exactly_placed.
  - exact spec_hue_0.
  - rewrite (hue_follows_spec 0)
      by (apply small_exactly_placed; split; [lia | reflexivity]).
    cbn [bind]. now rewrite spec_hue_0.
Qed.

(** C2, for the ids that the script places exactly.  For every id below
    [2 ^ 52] whose level comes out as the exact ceiling of the logarithm,
    as it does for every id from 0 to [2 ^ 29 - 2], the wrapped hue lies
    in [[0, 1)], and the colour mapper returns a triple whose three
    channels lie in [[0, 1]], [hsv_to_rgb] keeping fully saturated
    colours of such hues in the unit cube. *)
Theorem color_of_proc_valid_rgb (proc : Z) :
  (forall h, 0 <= h -> h < 1 -> valid_rgb (hsv_to_rgb (h, Z2Qc 1, Z2Qc 1))) ->
  exactly_placed log_ceil proc ->
  (exists h rgb,
      hue_of_proc log_ceil proc = Ok h /\ 0 <= h /\ h < 1 /\
      color_of_proc log_ceil hsv_to_rgb proc = Ok rgb /\ valid_rgb rgb) /\
  (forall p : Z, (0 <= p < 2 ^ 29 - 1)%Z -> exactly_placed log_ceil p).
Proof.
  intros Hhsv Hp. split; [|apply small_exactly_placed].
  destruct (hue_in_unit_interval log_ceil proc Hp) as (h & Eh & H0 & H1).
  exists h, (hsv_to_rgb (h, Z2Qc 1, Z2Qc 1)).
  unfold color_of_proc. rewrite Eh. cbn [bind].
  repeat split; try assumption. now apply Hhsv.
Qed.

(** Two different ids that are exactly placed get different wrapped
    hues. *)
Lemma placed_procs_distinct_hues (p q : Z) :
  exactly_placed log_ceil p -> exactly_placed log_ceil q -> p <> q ->
  exists hp hq,
    hue_of_proc log_ceil p = Ok hp /\ hue_of_proc log_ceil q = Ok hq /\
    0 <= hp /\ hp < 1 /\ 0 <= hq /\ hq < 1 /\ hp <> hq.
Proof.
  intros Hp Hq Hne.
  destruct (hue_in_unit_interval log_ceil p Hp) as (hp & Ep & P0 & P1).
  destruct (hue_in_unit_interval log_ceil q Hq) as (hq & Eq & Q0 & Q1).
  exists hp, hq. repeat split; try assumption.
  intros E. apply Hne. exact (hue_injective log_ceil p q hp hq Hp Hq Ep Eq E).
Qed.

(** The hue of the id [2 ^ l - 1] when the script takes level [l + 1]
    for it. *)
Lemma hue_one_level_up (l : Z) :
  (1 <= l <= 1022)%Z ->
  hue_at_level (l + 1) (2 ^ l - 1) = Ok (Z2Qc (2 ^ l - 1) / Z2Qc (2 ^ (l + 1))).
Proof.
  intros Hl.
  assert (P : (0 < 2 ^ l)%Z) by (apply Z.pow_pos_nonneg; lia).
  assert (B : (2 ^ l < float_limit)%Z) by (apply pow2_below_limit; lia).
  assert (E : (2 ^ (l + 1) = 2 * 2 ^ l)%Z).
  { replace (l + 1)%Z with (Z.succ l) by lia. apply Z.pow_succ_r. lia. }
  rewrite hue_at_level_exact by lia. f_equal.
  unfold wrapped_hue. cbv zeta. rewrite E, zero_is, one_is.
  assert (Hd : Z2Qc (2 ^ l) <> 0) by (apply Z2Qc_nonzero; lia).
  assert (H2 : 1 + 1 <> 0) by (rewrite <- Z2Qc_2; apply Z2Qc_nonzero; lia).
  assert (Hraw : (Z2Qc 1 + (Z2Qc (2 ^ l - 1) - Z2Qc (2 * 2 ^ l) / Z2Qc 2) * Z2Qc 2)
                 / Z2Qc (2 * 2 ^ l) - Q2Qc 0.5
                 = Z2Qc (- 2 ^ l - 1) / Z2Qc (2 * 2 ^ l)).
  { rewrite !Z2Qc_minus, !Z2Qc_mult, Z2Qc_opp, half_is, Z2Qc_2, Z2Qc_1.
    field. split; assumption. }
  rewrite Hraw.
  assert (H0 : 0 = Z2Qc 0 / Z2Qc (2 * 2 ^ l)).
  { rewrite Z2Qc_0. field. rewrite Z2Qc_mult, Z2Qc_2.
    intros F. apply Qcmult_integral in F. tauto. }
  replace (Qcltb (Z2Qc (- 2 ^ l - 1) / Z2Qc (2 * 2 ^ l)) 0) with true.
  - rewrite !Z2Qc_minus, !Z2Qc_mult, Z2Qc_opp, Z2Qc_2, Z2Qc_1.
    field. split; assumption.
  - symmetry. apply Qcltb_lt. rewrite H0. apply frac_lt; lia.
Qed.

(** The hue of the id [2 ^ l - 1] at its own level [l]. *)
Lemma hue_last_of_level (l : Z) :
  (1 <= l <= 1023)%Z ->
  hue_at_level l (2 ^ l - 1) = Ok (Z2Qc (2 ^ (l - 1) - 1) / Z2Qc (2 ^ l)).
Proof.
  intros Hl.
  assert (P : (0 < 2 ^ (l - 1))%Z) by (apply Z.pow_pos_nonneg; lia).
  assert (B : (2 ^ l < float_limit)%Z) by (apply pow2_below_limit; lia).
  assert (E : (2 ^ l = 2 * 2 ^ (l - 1))%Z).
  { rewrite <- Z.pow_succ_r by lia. f_equal. lia. }
  rewrite hue_at_level_exact by lia. f_equal.
  unfold wrapped_hue. cbv zeta. rewrite E, zero_is, one_is.
  set (h := (2 ^ (l - 1))%Z) in *.
  assert (Hd : Z2Qc h <> 0) by (apply Z2Qc_nonzero; lia).
  assert (H2 : 1 + 1 <> 0) by (rewrite <- Z2Qc_2; apply Z2Qc_nonzero; lia).
  assert (Hraw : (Z2Qc 1 + (Z2Qc (2 * h - 1) - Z2Qc (2 * h) / Z2Qc 2) * Z2Qc 2)
                 / Z2Qc (2 * h) - Q2Qc 0.5
                 = Z2Qc (h - 1) / Z2Qc (2 * h)).
  { rewrite !Z2Qc_minus, !Z2Qc_mult, half_is, Z2Qc_2, Z2Qc_1.
    field. split; assumption. }
  rewrite Hraw.
  assert (H0 : 0 = Z2Qc 0 / Z2Qc (2 * h)).
  { rewrite Z2Qc_0. field. rewrite Z2Qc_mult, Z2Qc_2.
    intros F. apply Qcmult_integral in F. tauto. }
  replace (Qcltb (Z2Qc (h - 1) / Z2Qc (2 * h)) 0) with false; [reflexivity|].
  symmetry. apply Qcltb_ge. rewrite H0. apply frac_le; lia.
Qed.

(** C10, as the script behaves.  [log(2 ** 29, 2)] is
    [29.000000000000004], so the id [2 ^ 29 - 1] gets level 30, the level
    of the id [2 ^ 30 - 1]; with every other operation exact the two ids
    get the same hue, [(2 ^ 29 - 1) / 2 ^ 30], and the same colour. *)
Theorem rounded_level_merges_hues :
  log_ceil (2 ^ 29) = 30%N -> log_ceil (2 ^ 30) = 30%N ->
  hue_of_proc log_ceil (2 ^ 29 - 1) = Ok (Z2Qc (2 ^ 29 - 1) / Z2Qc (2 ^ 30)) /\
  hue_of_proc log_ceil (2 ^ 30 - 1) = Ok (Z2Qc (2 ^ 29 - 1) / Z2Qc (2 ^ 30)) /\
  color_of_proc log_ceil hsv_to_rgb (2 ^ 29 - 1)
  = color_of_proc log_ceil hsv_to_rgb (2 ^ 30 - 1).
Proof.
  intros L29 L30.
  assert (E29 : hue_of_proc log_ceil (2 ^ 29 - 1)
                = Ok (Z2Qc (2 ^ 29 - 1) / Z2Qc (2 ^ 30))).
  { unfold hue_of_proc, ceil_log2.
    change (2 ^ 29 - 1 + 1)%Z with (2 ^ 29)%Z.
    change (2 ^ 29 <=? 0)%Z with false. change (2 ^ 29 <? 2 ^ 29)%Z with false.
    cbv iota. rewrite L29. cbn [bind].
    change (Z.of_N 30) with (29 + 1)%Z. rewrite hue_one_level_up by lia.
    reflexivity. }
  assert (E30 : hue_of_proc log_ceil (2 ^ 30 - 1)
                = Ok (Z2Qc (2 ^ 29 - 1) / Z2Qc (2 ^ 30))).
  { unfold hue_of_proc, ceil_log2.
    change (2 ^ 30 - 1 + 1)%Z with (2 ^ 30)%Z.
    change (2 ^ 30 <=? 0)%Z with false. change (2 ^ 30 <? 2 ^ 29)%Z with false.
    cbv iota. rewrite L30. cbn [bind].
    change (Z.of_N 30) with 30%Z. rewrite hue_last_of_level by lia.
    reflexivity. }
  split; [exact E29|]. split; [exact E30|].
  unfold color_of_proc. now rewrite E29, E30.
Qed.

End ColorMapperFacts.

Lemma color_of_proc_follows_spec_witness :
  color_of_proc log_ceil_sample hsv_to_rgb_hexcone 5
    = Ok (hsv_to_rgb_hexcone (Spec.hue 5, Z2Qc 1, Z2Qc 1))
  /\ (forall p : Z, 0 <= p < 2 ^ 29 - 1 -> exactly_placed log_ceil_sample p)
  /\ Spec.hue 0 = Q2Qc 0.5
  /\ color_of_proc log_ceil_sample hsv_to_rgb_hexcone 0
     = Ok (hsv_to_rgb_hexcone (Q2Qc 0.5, Z2Qc 1, Z2Qc 1)).
Proof.
  apply (color_of_proc_follows_spec log_ceil_sample hsv_to_rgb_hexcone 5).
  split; [split; vm_compute; congruence | reflexivity].
Defined.

(** C1, as worded: at the id [2 ^ 1024] the mapper returns no colour,
    whatever the level and the conversion to RGB are. *)
Lemma huge_proc_no_spec_hue_counterexample :
  (0 <= 2 ^ 1024)%Z /\
  ~ exists (log_ceil : Z -> N) (hsv_to_rgb : triple -> triple),
      color_of_proc log_ceil hsv_to_rgb (2 ^ 1024)
      = Ok (hsv_to_rgb (Spec.hue (2 ^ 1024), Z2Qc 1, Z2Qc 1)).
Proof.
  split; [vm_compute; discriminate|].
  intros (log_ceil & hsv_to_rgb & H).
  rewrite color_of_proc_overflow in H by (vm_compute; discriminate).
  discriminate H.
Qed.

Lemma color_of_proc_valid_rgb_witness :
  exists h rgb,
    hue_of_proc log_ceil_sample 5 = Ok h /\ (0 <= h)%Qc /\ (h < 1)%Qc /\
    color_of_proc log_ceil_sample hsv_to_rgb_hexcone 5 = Ok rgb /\ valid_rgb rgb.
Proof.
  apply (color_of_proc_valid_rgb log_ceil_sample hsv_to_rgb_hexcone 5).
  - exact hexcone_valid.
  - split; [split; vm_compute; congruence | reflexivity].
Defined.

(** C2, as worded: at the id [2 ^ 1024] no triple is returned. *)
Lemma huge_proc_no_triple_counterexample :
  (0 <= 2 ^ 1024)%Z /\
  ~ exists (log_ceil : Z -> N) (hsv_to_rgb : triple -> triple) (rgb : triple),
      color_of_proc log_ceil hsv_to_rgb (2 ^ 1024) = Ok rgb /\ valid_rgb rgb.
Proof.
  split; [vm_compute; discriminate|].
  intros (log_ceil & hsv_to_rgb & rgb & H & _).
  rewrite color_of_proc_overflow in H by (vm_compute; discriminate).
  discriminate H.
Qed.

Lemma rounded_level_merges_hues_witness :
  hue_of_proc log_ceil_sample (2 ^ 29 - 1)
  = Ok (Z2Qc (2 ^ 29 - 1) / Z2Qc (2 ^ 30))%Qc /\
  hue_of_proc log_ceil_sample (2 ^ 30 - 1)
  = Ok (Z2Qc (2 ^ 29 - 1) / Z2Qc (2 ^ 30))%Qc /\
  color_of_proc log_ceil_sample hsv_to_rgb_hexcone (2 ^ 29 - 1)
  = color_of_proc log_ceil_sample hsv_to_rgb_hexcone (2 ^ 30 - 1).
Proof.
  apply (rounded_level_merges_hues log_ceil_sample hsv_to_rgb_hexcone);
    reflexivity.
Defined.

(** With the hexcone conversion both conditions on [hsv_to_rgb] hold, so
    the colours of the ids that are exactly placed are valid and pairwise
    different. *)
Corollary hexcone_colors_valid_and_distinct (log_ceil : Z -> N) (p q : Z) :
  exactly_placed log_ceil p -> exactly_placed log_ceil q -> p <> q ->
  (exists rgb,
      color_of_proc log_ceil hsv_to_rgb_hexcone p = Ok rgb /\ valid_rgb rgb) /\
  color_of_proc log_ceil hsv_to_rgb_hexcone p
  <> color_of_proc log_ceil hsv_to_rgb_hexcone q.
Proof.
  intros Hp Hq Hne.
  destruct (placed_procs_distinct_hues log_ceil p q Hp Hq Hne)
    as (hp & hq & Ep & Eq & P0 & P1 & Q0 & Q1 & Hh).
  unfold color_of_proc. rewrite Ep, Eq. cbn [bind]. split.
  - eexists. split; [reflexivity|]. now apply hexcone_valid.
  - intros E. apply Hh. apply hexcone_injective; try assumption. congruence.
Qed.

(* ================================================================= *)
(** ** Hues of one level *)

Section SameLevel.

Local Open Scope Qc_scope.

Variable log_ceil : Z -> N.

(** Two ids of level [l]: the numerators of their hues over [2 * 2 ^ l]
    differ by a non-zero multiple of 4 that is smaller than a turn. *)
Lemma same_level_numerators (l p q : Z) :
  (1 <= l)%Z ->
  (2 ^ (l - 1) <= p <= 2 ^ l - 1)%Z ->
  (2 ^ (l - 1) <= q <= 2 ^ l - 1)%Z ->
  p <> q ->
  (hue_numerator q + 4 <= hue_numerator p <= hue_numerator q + 2 * 2 ^ l - 4)%Z \/
  (hue_numerator p + 4 <= hue_numerator q <= hue_numerator p + 2 * 2 ^ l - 4)%Z.
Proof.
  intros Hl Hp Hq Hne.
  unfold hue_numerator, raw_numerator.
  rewrite (level_unique p l Hl Hp), (level_unique q l Hl Hq).
  assert (E : (2 ^ l = 2 * 2 ^ (l - 1))%Z).
  { rewrite <- Z.pow_succ_r by lia. f_equal. lia. }
  rewrite E in *. set (d := (2 ^ (l - 1))%Z) in *.
  destruct (2 * (2 * p + 1 - 2 * d) <? 2 * d)%Z eqn:Lp;
    destruct (2 * (2 * q + 1 - 2 * d) <? 2 * d)%Z eqn:Lq;
    try apply Z.ltb_lt in Lp; try apply Z.ltb_ge in Lp;
    try apply Z.ltb_lt in Lq; try apply Z.ltb_ge in Lq; lia.
Qed.

Lemma frac_shift (a b d : Z) :
  (0 < d)%Z ->
  Z2Qc a / Z2Qc (2 * d) + Z2Qc b / Z2Qc d = Z2Qc (a + 2 * b) / Z2Qc (2 * d).
Proof.
  intros Hd. rewrite Z2Qc_plus, !Z2Qc_mult, Z2Qc_2.
  assert (Z2Qc d <> 0) by (apply Z2Qc_nonzero; lia).
  assert (1 + 1 <> 0) by (rewrite <- Z2Qc_2; apply Z2Qc_nonzero; lia).
  field. split; assumption.
Qed.

Lemma frac_turn (a b d : Z) :
  (0 < d)%Z ->
  Z2Qc a / Z2Qc (2 * d) + 1 - Z2Qc b / Z2Qc d
  = Z2Qc (a + 2 * d - 2 * b) / Z2Qc (2 * d).
Proof.
  intros Hd. rewrite Z2Qc_minus, Z2Qc_plus, !Z2Qc_mult, Z2Qc_2.
  assert (Z2Qc d <> 0) by (apply Z2Qc_nonzero; lia).
  assert (1 + 1 <> 0) by (rewrite <- Z2Qc_2; apply Z2Qc_nonzero; lia).
  field. split; assumption.
Qed.

(** The ids of the levels up to 28 lie below [2 ^ 29 - 1]. *)
Lemma level_ids_small (l p : Z) :
  (1 <= l <= 28)%Z -> (2 ^ (l - 1) <= p <= 2 ^ l - 1)%Z ->
  (0 <= p < 2 ^ 29 - 1)%Z.
Proof.
  intros Hl Hp.
  assert (0 < 2 ^ (l - 1))%Z by (apply Z.pow_pos_nonneg; lia).
  assert (2 ^ l <= 2 ^ 28)%Z by (apply Z.pow_le_mono_r; lia).
  assert (2 ^ 28 < 2 ^ 29 - 1)%Z by reflexivity.
  lia.
Qed.

(** C3, for the ids that the script places exactly.  The hues of the ids
    of one level are spread as far apart as the level allows: two
    different ids of level [l], both below [2 ^ 52] and with a level that
    comes out as the exact ceiling of the logarithm, have hues at least
    [2 / 2 ^ l] apart around the hue circle, which is the spacing of
    [2 ^ (l - 1)] evenly spread points; all the ids of the levels 1 to 28
    are such ids.  At level 2 the hue of id 2 is 0.75, the hue of id 3 is
    0.25, and they differ by exactly 0.5. *)
Theorem same_level_hues_separated :
  hue_of_proc log_ceil 2 = Ok (Q2Qc 0.75) /\
  hue_of_proc log_ceil 3 = Ok (Q2Qc 0.25) /\
  Q2Qc 0.75 - Q2Qc 0.25 = Q2Qc 0.5 /\
  (forall l p q : Z,
      (1 <= l)%Z ->
      (2 ^ (l - 1) <= p <= 2 ^ l - 1)%Z ->
      (2 ^ (l - 1) <= q <= 2 ^ l - 1)%Z ->
      exactly_placed log_ceil p -> exactly_placed log_ceil q ->
      p <> q ->
      exists hp hq,
        hue_of_proc log_ceil p = Ok hp /\ hue_of_proc log_ceil q = Ok hq /\
        let gap := Z2Qc 2 / Z2Qc (2 ^ l) in
        (hq + gap <= hp /\ hp <= hq + 1 - gap) \/
        (hp + gap <= hq /\ hq <= hp + 1 - gap)) /\
  (forall l p : Z,
      (1 <= l <= 28)%Z -> (2 ^ (l - 1) <= p <= 2 ^ l - 1)%Z ->
      exactly_placed log_ceil p).
Proof.
  split; [|split; [|split; [|split]]].
  - rewrite hue_closed_form
      by (apply small_exactly_placed; split; [lia | reflexivity]).
    f_equal. apply Qc_is_canon. reflexivity.
  - rewrite hue_closed_form
      by (apply small_exactly_placed; split; [lia | reflexivity]).
    f_equal. apply Qc_is_canon. reflexivity.
  - apply Qc_is_canon. reflexivity.
  - intros l p q Hl Hp Hq Pp Pq Hne.
    assert (Hd : (0 < 2 ^ l)%Z) by (apply Z.pow_pos_nonneg; lia).
    assert (Hd' : (0 < 2 ^ (l - 1))%Z) by (apply Z.pow_pos_nonneg; lia).
    do 2 eexists.
    split; [apply hue_closed_form; exact Pp|].
    split; [apply hue_closed_form; exact Pq|].
    rewrite (level_unique p l Hl Hp), (level_unique q l Hl Hq).
    cbv zeta. rewrite !frac_shift, !frac_turn by exact Hd.
    rewrite !frac_le by lia.
    destruct (same_level_numerators l p q Hl Hp Hq Hne); [left | right]; lia.
  - intros l p Hl Hp. apply small_exactly_placed. now apply (level_ids_small l).
Qed.

End SameLevel.

Lemma same_level_hues_separated_witness :
  exists hp hq,
    hue_of_proc log_ceil_sample 4 = Ok hp /\ hue_of_proc log_ceil_sample 7 = Ok hq /\
    let gap := (Z2Qc 2 / Z2Qc (2 ^ 3))%Qc in
    ((hq + gap <= hp /\ hp <= hq + 1 - gap) \/
     (hp + gap <= hq /\ hq <= hp + 1 - gap))%Qc.
Proof.
  destruct (same_level_hues_separated log_ceil_sample) as (_ & _ & _ & H & _).
  apply (H 3 4 7); try (simpl; lia);
    (split; [split; vm_compute; congruence | reflexivity]).
Defined.

(** C3, as worded: the ids [2 ^ 1024] and [2 ^ 1024 + 1] belong to level
    1025 and get no hue at all. *)
Lemma top_level_no_hues_counterexample :
  (2 ^ (1025 - 1) <= 2 ^ 1024 <= 2 ^ 1025 - 1)%Z /\
  (2 ^ (1025 - 1) <= 2 ^ 1024 + 1 <= 2 ^ 1025 - 1)%Z /\
  ~ exists (log_ceil : Z -> N) (hp hq : Qc),
      hue_of_proc log_ceil (2 ^ 1024) = Ok hp /\
      hue_of_proc log_ceil (2 ^ 1024 + 1) = Ok hq.
Proof.
  split; [split; vm_compute; discriminate|].
  split; [split; vm_compute; discriminate|].
  intros (log_ceil & hp & hq & H & _).
  rewrite hue_of_proc_overflow in H by (vm_compute; discriminate).
  discriminate H.
Qed.

(* ================================================================= *)
(** ** Text: lines, tokens and integer literals *)

Section TextFacts.

Import Text.
Local Open Scope string_scope.

Lemma append_nil_r (s : string) : s ++ "" = s.
Proof. induction s as [|c s IH]; cbn; [reflexivity | now rewrite IH]. Qed.

Lemma append_assoc (s t u : string) : (s ++ t) ++ u = s ++ (t ++ u).
Proof. induction s as [|c s IH]; cbn; [reflexivity | now rewrite IH]. Qed.

(** *** [readline] walks through [lines] *)

Lemma readline_lines (fin : string) :
  lines fin =
    match fin with
    | "" => []
    | _ => fst (readline fin) :: lines (snd (readline fin))
    end.
Proof.
  induction fin as [|c rest IH]; [reflexivity|].
  cbn [lines readline]. destruct (c =? LF)%char; [reflexivity|].
  rewrite IH. destruct rest as [|c' rest']; [reflexivity|].
  destruct (readline (String c' rest')) as [line rest'']. reflexivity.
Qed.

Lemma readline_head (fin line rest : string) :
  readline fin = (line, rest) ->
  line = nth 0 (lines fin) "" /\ lines rest = tl (lines fin).
Proof.
  intros E. rewrite (readline_lines fin).
  destruct fin as [|c fin']; [inversion E; subst; now split|].
  rewrite E. now split.
Qed.

(** *** [split] and [join] *)

Lemma split_not_nil (sep : ascii) (s : string) : split sep s <> [].
Proof.
  destruct s as [|c s]; cbn; [discriminate|].
  destruct (c =? sep)%char; [discriminate|].
  destruct (split sep s); discriminate.
Qed.

Lemma join_split (sep : ascii) (s : string) : join sep (split sep s) = s.
Proof.
  induction s as [|c s IH]; [reflexivity|]. cbn [split].
  destruct (c =? sep)%char eqn:E.
  - apply Ascii.eqb_eq in E. subst c.
    pose proof (split_not_nil sep s) as N.
    destruct (split sep s) as [|tok toks]; [congruence|].
    cbn [join] in *. now rewrite IH.
  - destruct (split sep s) as [|tok toks] eqn:S; [now apply split_not_nil in S|].
    cbn [join] in *. destruct toks; cbn [append]; now rewrite IH.
Qed.

(** *** Blanks *)

(** What [int] drops is a blank for [str.split()] too. *)
Lemma int_space_is_space (c : ascii) : int_space c = true -> is_space c = true.
Proof.
  destruct c as [[] [] [] [] [] [] [] []]; cbv; intros H;
    first [reflexivity | discriminate H].
Qed.

Lemma not_space_not_int_space (c : ascii) :
  is_space c = false -> int_space c = false.
Proof.
  intros H. destruct (int_space c) eqn:E; [|reflexivity].
  apply int_space_is_space in E. congruence.
Qed.

Lemma lstrip_decomp (s : string) :
  exists pre, all_space pre = true /\ s = pre ++ lstrip s.
Proof.
  induction s as [|c s (pre & Hpre & E)]; [now exists ""|].
  cbn [lstrip]. destruct (int_space c) eqn:Ec.
  - exists (String c pre). cbn. rewrite (int_space_is_space c Ec), Hpre.
    split; [reflexivity|]. now rewrite <- E.
  - now exists "".
Qed.

Lemma rstrip_decomp (s : string) :
  exists post, all_space post = true /\ s = rstrip s ++ post.
Proof.
  induction s as [|c s (post & Hpost & E)]; [now exists ""|].
  cbn [rstrip]. destruct (rstrip s) as [|c' s'] eqn:R.
  - destruct (int_space c) eqn:Ec.
    + exists (String c post). cbn in *.
      rewrite (int_space_is_space c Ec), Hpost. split; [reflexivity|].
      now rewrite <- E.
    + exists post. split; [assumption|]. cbn in *. now rewrite <- E.
  - exists post. split; [assumption|]. cbn in *. now rewrite <- E.
Qed.

Lemma strip_decomp (s : string) :
  exists pre post,
    all_space pre = true /\ all_space post = true /\
    s = pre ++ strip s ++ post.
Proof.
  destruct (lstrip_decomp s) as (pre & Hpre & E).
  destruct (rstrip_decomp (lstrip s)) as (post & Hpost & E').
  exists pre, post. unfold strip. now rewrite <- E', <- E.
Qed.

Lemma no_space_rstrip (w : string) : no_space w = true -> rstrip w = w.
Proof.
  induction w as [|c w IH]; [reflexivity|]. cbn.
  intros H. apply andb_prop in H as [Hc Hw]. rewrite (IH Hw).
  apply negb_true_iff, not_space_not_int_space in Hc.
  destruct w; [|reflexivity]. now rewrite Hc.
Qed.

Lemma no_space_strip (w : string) : no_space w = true -> strip w = w.
Proof.
  intros H. unfold strip.
  replace (lstrip w) with w; [now apply no_space_rstrip|].
  destruct w as [|c w]; [reflexivity|]. cbn in *.
  apply andb_prop in H as [Hc _].
  apply negb_true_iff, not_space_not_int_space in Hc. now rewrite Hc.
Qed.

(** *** Integer literals *)

Lemma digit_not_space (c : ascii) : is_digit c = true -> is_space c = false.
Proof.
  destruct c as [[] [] [] [] [] [] [] []]; cbv; intros H;
    first [reflexivity | discriminate H].
Qed.

Lemma digits_no_space (s : string) (acc : Z) (b : bool) (count z : Z) :
  digits s acc b count = Some z -> no_space s = true.
Proof.
  revert acc b count.
  induction s as [|c s IH]; intros acc b count H; [reflexivity|].
  cbn [digits no_space] in *. destruct (is_digit c) eqn:D.
  - rewrite (digit_not_space c D). cbn. eauto.
  - destruct (c =? "_")%char eqn:U; [|discriminate].
    apply Ascii.eqb_eq in U. subst c. cbn.
    destruct b; [eauto | discriminate].
Qed.

Lemma int_literal_word (s : string) (z : Z) :
  int_literal s = Some z -> word (strip s) = true.
Proof.
  unfold int_literal. destruct (strip s) as [|c body]; [discriminate|].
  cbn [word].
  destruct (c =? "+")%char eqn:P; [|destruct (c =? "-")%char eqn:M].
  - apply Ascii.eqb_eq in P. subst c. intros H. cbn.
    now apply digits_no_space in H.
  - apply Ascii.eqb_eq in M. subst c. intros H. cbn.
    destruct (digits body 0 false 0) eqn:D; [|discriminate].
    now apply digits_no_space in D.
  - intros H. now apply digits_no_space in H.
Qed.

Lemma word_no_space (w : string) : word w = true -> no_space w = true.
Proof. destruct w; [discriminate | trivial]. Qed.

Lemma int_literal_strip (s : string) (z : Z) :
  int_literal s = Some z -> int_literal (strip s) = Some z.
Proof.
  intros H. pose proof (int_literal_word s z H) as W.
  unfold int_literal in *.
  now rewrite (no_space_strip (strip s) (word_no_space _ W)).
Qed.

(** *** Whitespace-separated fields *)

Lemma fields_all_space (pre s : string) :
  all_space pre = true -> fields (pre ++ s) = fields s.
Proof.
  induction pre as [|c pre IH]; [reflexivity|]. cbn.
  intros H. apply andb_prop in H as [Hc Hpre]. rewrite Hc. auto.
Qed.

Lemma starts_blank_app (post s : string) :
  all_space post = true -> starts_blank s = true ->
  starts_blank (post ++ s) = true.
Proof.
  destruct post as [|c post]; [trivial|]. cbn.
  intros H _. now apply andb_prop in H as [Hc _].
Qed.

Lemma fields_word (w s : string) :
  word w = true -> starts_blank s = true -> fields (w ++ s) = w :: fields s.
Proof.
  induction w as [|c w IH]; [discriminate|].
  cbn [word no_space]. intros H Hs. apply andb_prop in H as [Hc Hw].
  apply negb_true_iff in Hc. cbn [append fields]. rewrite Hc.
  destruct w as [|c' w'].
  - cbn [append]. destruct s as [|d s']; [reflexivity|].
    cbn [starts_blank] in Hs. now rewrite Hs.
  - cbn [append]. pose proof Hw as Hw'. cbn [no_space] in Hw'.
    apply andb_prop in Hw' as [Hc' _]. apply negb_true_iff in Hc'.
    rewrite Hc'. change (String c' (w' ++ s)) with (String c' w' ++ s).
    now rewrite (IH Hw Hs).
Qed.

(** A token that [int] accepts contributes exactly one field, its
    stripped text. *)
Lemma fields_token (t rest : string) (z : Z) :
  int_literal t = Some z -> starts_blank rest = true ->
  fields (t ++ rest) = strip t :: fields rest.
Proof.
  intros H Hrest. pose proof (int_literal_word t z H) as W.
  destruct (strip_decomp t) as (pre & post & Hpre & Hpost & E).
  rewrite E at 1. rewrite !append_assoc.
  rewrite (fields_all_space pre _ Hpre).
  rewrite (fields_word _ _ W (starts_blank_app post rest Hpost Hrest)).
  now rewrite (fields_all_space post _ Hpost).
Qed.

Lemma fields_space_sep (s : string) : fields (String " " s) = fields s.
Proof. reflexivity. Qed.

(** [int] and the unpacking never run forever. *)
Lemma parse_triple_not_timeout (line : string) : parse_triple line <> Timeout.
Proof.
  unfold parse_triple, unpack3, int.
  destruct (split " " line) as [|t1 [|t2 [|t3 [|t4 more]]]]; try discriminate;
    repeat match goal with
      | |- context [int_literal ?t] => destruct (int_literal t); cbn [bind]
      end; discriminate.
Qed.

Lemma parse_triple_ok (line : string) (a b c : Z) :
  parse_triple line = Ok (a, b, c) ->
  exists t1 t2 t3,
    line = t1 ++ String " " (t2 ++ String " " t3) /\
    int_literal t1 = Some a /\ int_literal t2 = Some b /\
    int_literal t3 = Some c.
Proof.
  unfold parse_triple. intros H.
  pose proof (join_split " " line) as J.
  destruct (split " " line) as [|t1 [|t2 [|t3 [|t4 more]]]];
    unfold unpack3, int in H;
    repeat match type of H with
      | context [int_literal ?t] => destruct (int_literal t) eqn:?; cbn [bind] in H
      end; try discriminate.
  exists t1, t2, t3. cbn [join] in J. split; [now symmetry|].
  injection H as -> -> ->. auto.
Qed.

(** A line that unpacks into three integers has exactly three
    whitespace-separated fields, and they are the three literals. *)
Lemma parse_triple_fields (line : string) (a b c : Z) :
  parse_triple line = Ok (a, b, c) ->
  exists w1 w2 w3,
    fields line = [w1; w2; w3] /\
    int_literal w1 = Some a /\ int_literal w2 = Some b /\
    int_literal w3 = Some c.
Proof.
  intros H. destruct (parse_triple_ok line a b c H)
    as (t1 & t2 & t3 & -> & H1 & H2 & H3).
  exists (strip t1), (strip t2), (strip t3). split.
  - rewrite (fields_token t1 _ a H1) by reflexivity. rewrite fields_space_sep.
    rewrite (fields_token t2 _ b H2) by reflexivity. rewrite fields_space_sep.
    rewrite <- (append_nil_r t3) at 1.
    now rewrite (fields_token t3 "" c H3).
  - auto using int_literal_strip.
Qed.

Lemma parse_triple_well_formed (line : string) (a b c : Z) :
  parse_triple line = Ok (a, b, c) -> ~ malformed line.
Proof.
  intros H. destruct (parse_triple_fields line a b c H)
    as (w1 & w2 & w3 & F & H1 & H2 & H3).
  unfold malformed. rewrite F. intros [L | (tok & I & N)].
  - cbn in L. lia.
  - cbn in I. destruct I as [<-|[<-|[<-|[]]]]; congruence.
Qed.

Lemma malformed_eof : malformed "".
Proof. left. cbn. lia. Qed.

End TextFacts.

(* ================================================================= *)
(** ** The main block *)

Section ScriptFacts.

Import Text.
Local Open Scope string_scope.

Variable log_ceil : Z -> N.
Variable hsv_to_rgb : triple -> triple.

(** The mapper returns a colour for every id from 0 to [2 ^ 29 - 2]. *)
Lemma color_of_proc_ok (p : Z) :
  0 <= p < 2 ^ 29 - 1 -> succeeds (color_of_proc log_ceil hsv_to_rgb p).
Proof.
  intros Hp. unfold color_of_proc.
  rewrite (hue_closed_form log_ceil p (small_exactly_placed log_ceil p Hp)).
  cbn [bind]. now eexists.
Qed.

Lemma color_of_proc_not_timeout (p : Z) :
  color_of_proc log_ceil hsv_to_rgb p <> Timeout.
Proof.
  unfold color_of_proc. pose proof (hue_of_proc_not_timeout log_ceil p) as N.
  destruct (hue_of_proc log_ceil p); cbn [bind]; congruence.
Qed.

(** The loop of lines 63-64 goes through as long as it stays below
    [2 ^ 29 - 1]. *)
Lemma warm_up_ok (count : nat) (i : Z) :
  0 <= i -> i + Z.of_nat count <= 2 ^ 29 - 1 ->
  warm_up log_ceil hsv_to_rgb i count = Ok tt.
Proof.
  revert i. induction count as [|count IH]; intros i Hi Hc; [reflexivity|].
  cbn [warm_up]. destruct (color_of_proc_ok i) as [c ->]; [lia|]. cbn [bind].
  apply IH; lia.
Qed.

Lemma main_eq (fuel : nat) (file : string) :
  main log_ceil hsv_to_rgb fuel file = read_and_plot log_ceil hsv_to_rgb fuel file.
Proof.
  unfold main. rewrite warm_up_ok; [reflexivity | lia | vm_compute; discriminate].
Qed.

(** *** The loop that skips comments *)

Lemma skip_comments_stops (fuel : nat) (line fin : string) :
  skipped line = false -> skip_comments fuel line fin = Ok (line, fin).
Proof. intros H. destruct fuel; cbn; now rewrite H. Qed.

(** A line that starts with a line feed is not skipped. *)
Lemma blank_line_not_skipped (rest : string) : skipped (nl ++ rest) = false.
Proof. reflexivity. Qed.

(** Any number of leading comment lines is skipped, given one unit of
    fuel per comment line, and the next line is returned. *)
Lemma skip_comments_finds (comments : list string) :
  forall (line fin ttl : string) (more : list string) (fuel : nat),
    line :: lines fin = (comments ++ ttl :: more)%list ->
    Forall (fun l => skipped l = true) comments ->
    skipped ttl = false ->
    (List.length comments <= fuel)%nat ->
    exists fin', skip_comments fuel line fin = Ok (ttl, fin') /\ lines fin' = more.
Proof.
  induction comments as [|c comments IH]; intros line fin ttl more fuel E F T L.
  - cbn in E. injection E as -> <-. exists fin.
    split; [now apply skip_comments_stops | reflexivity].
  - cbn in E. injection E as -> E. inversion F as [|? ? Fc F']; subst.
    destruct fuel as [|fuel]; [cbn in L; lia|].
    cbn [skip_comments]. rewrite Fc.
    destruct (readline fin) as [line' fin'] eqn:R.
    destruct (readline_head fin line' fin' R) as [Hl Ht].
    apply (IH line' fin' ttl more fuel); try assumption.
    + rewrite Hl, Ht, E. now destruct comments.
    + cbn in L. lia.
Qed.

(** When no line is left that would stop it, the loop never ends. *)
Lemma skip_comments_never_ends (fuel : nat) :
  forall line fin : string,
    skipped line = true ->
    Forall (fun l => skipped l = true) (lines fin) ->
    skip_comments fuel line fin = Timeout.
Proof.
  induction fuel as [|fuel IH]; intros line fin S F; cbn [skip_comments]; rewrite S.
  - reflexivity.
  - destruct (readline fin) as [line' fin'] eqn:R.
    destruct (readline_head fin line' fin' R) as [Hl Ht].
    apply IH.
    + rewrite Hl. destruct (lines fin); [reflexivity|].
      now inversion F.
    + rewrite Ht. destruct (lines fin); [constructor|]. now inversion F.
Qed.

Lemma all_comments_never_ends (fuel : nat) (file : string) :
  Forall (fun l => skipped l = true) (lines file) ->
  main log_ceil hsv_to_rgb fuel file = Timeout.
Proof.
  intros F. rewrite main_eq. unfold read_and_plot.
  destruct (readline file) as [line fin] eqn:R.
  destruct (readline_head file line fin R) as [Hl Ht].
  rewrite (skip_comments_never_ends fuel line fin); [reflexivity| |].
  - rewrite Hl. destruct (lines file); [reflexivity|]. now inversion F.
  - rewrite Ht. destruct (lines file); [constructor|]. now inversion F.
Qed.

(** C4. On a file whose first line is blank the script does not skip
    that line: the loop of lines 67-69 stops at once and the blank line
    becomes the title, whatever follows.  On the sample the next line,
    "Title", is then read as the dimension line and [int] raises. *)
Theorem blank_line_taken_as_title (fuel : nat) :
  (forall rest,
      skip_comments fuel (fst (readline (nl ++ rest)))
                    (snd (readline (nl ++ rest))) = Ok (nl, rest)) /\
  main log_ceil hsv_to_rgb fuel Samples.blank_before_title
    = Raise (ValueError_int ("Title" ++ nl)).
Proof.
  split.
  - intros rest. now apply skip_comments_stops.
  - rewrite main_eq. unfold read_and_plot, Samples.blank_before_title.
    cbn [readline append nl]. rewrite Ascii.eqb_refl.
    rewrite skip_comments_stops by reflexivity. reflexivity.
Qed.

(** A line with more than three tokens never unpacks. *)
Lemma unpack3_too_many (t1 t2 t3 t4 : string) (more : list string) :
  raises (unpack3 (t1 :: t2 :: t3 :: t4 :: more)).
Proof.
  unfold unpack3, int.
  repeat match goal with
    | |- context [int_literal ?t] => destruct (int_literal t); cbn [bind]
    end; now eexists.
Qed.

(** C5. On the sample whose dimension line is "3 3 2 4" (rows, columns,
    nonzeros and the processor count of the file format) the script
    raises [ValueError]: the line unpacks into exactly three names and
    the fourth integer is one value too many. *)
Theorem fourth_dimension_rejected (fuel : nat) :
  main log_ceil hsv_to_rgb fuel Samples.four_dims = Raise ValueError_unpack_many.
Proof.
  rewrite main_eq. unfold read_and_plot.
  replace (readline Samples.four_dims)
    with ("Title" ++ nl, "3 3 2 4" ++ nl ++ "1 1 0" ++ nl ++ "2 2 1" ++ nl)
    by reflexivity.
  rewrite skip_comments_stops by reflexivity. reflexivity.
Qed.

(** C7. On the sample made of comment lines only the script reaches the
    end of the file inside the loop of lines 67-69 and stays there:
    whatever the fuel, the run neither returns nor raises. *)
Theorem only_comments_never_ends (fuel : nat) :
  main log_ceil hsv_to_rgb fuel Samples.only_comments = Timeout.
Proof.
  apply all_comments_never_ends.
  repeat constructor.
Qed.

End ScriptFacts.

(* ================================================================= *)
(** ** The data loop *)

Section DataLoop.

Import Text.
Local Open Scope string_scope.

Variable log_ceil : Z -> N.
Variable hsv_to_rgb : triple -> triple.

Lemma nth_tl (k : nat) (l : list string) :
  nth k (tl l) "" = nth (S k) l "".
Proof. destruct l; destruct k; reflexivity. Qed.

Lemma nth_past_end (k : nat) (l : list string) :
  (List.length l <= k)%nat -> nth k l "" = "".
Proof. intros H. now apply nth_overflow. Qed.

(** A malformed line among those the loop still has to read makes the
    loop raise. *)
Lemma data_loop_malformed (count : nat) :
  forall (k : nat) (fin : string) (ax : Axes) (seen : list (Z * Z * Z)),
    (k < count)%nat ->
    malformed (nth k (lines fin) "") ->
    raises (data_loop log_ceil hsv_to_rgb count fin ax seen).
Proof.
  induction count as [|count IH]; intros k fin ax seen Hk Hbad; [lia|].
  cbn [data_loop]. destruct (readline fin) as [line fin'] eqn:R.
  destruct (readline_head fin line fin' R) as [Hl Ht].
  destruct (parse_triple line) as [[[i j] p]|e|] eqn:P; cbn [bind].
  - destruct k as [|k].
    + exfalso. apply (parse_triple_well_formed line i j p P). now rewrite Hl.
    + destruct (float_add_cases j marker_offset) as [-> | ->]; cbn [bind];
        [|now eexists].
      destruct (float_add_cases i marker_offset) as [-> | ->]; cbn [bind];
        [|now eexists].
      destruct (color_of_proc log_ceil hsv_to_rgb p) as [c|e|] eqn:C; cbn [bind].
      * apply (IH k); [lia|]. now rewrite Ht, nth_tl.
      * now exists e.
      * now apply color_of_proc_not_timeout in C.
  - now exists e.
  - now apply parse_triple_not_timeout in P.
Qed.

(** What a completed loop has done: one entry and one square per turn,
    in order, the limits untouched. *)
Lemma data_loop_draws (count : nat) :
  forall (fin : string) (ax ax' : Axes) (seen seen' : list (Z * Z * Z)),
    data_loop log_ceil hsv_to_rgb count fin ax seen = Ok (ax', seen') ->
    xlim ax' = xlim ax /\ ylim ax' = ylim ax /\
    exists new_entries new_patches,
      seen' = (seen ++ new_entries)%list /\
      patches ax' = (patches ax ++ new_patches)%list /\
      List.length new_entries = count /\
      Forall2 (drawn log_ceil hsv_to_rgb) new_entries new_patches.
Proof.
  induction count as [|count IH]; intros fin ax ax' seen seen' H.
  - cbn in H. injection H as <- <-. repeat split.
    exists [], []. rewrite !app_nil_r. repeat split. constructor.
  - cbn [data_loop] in H. destruct (readline fin) as [line fin'].
    destruct (parse_triple line) as [[[i j] p]|e|]; cbn [bind] in H;
      try discriminate.
    destruct (float_add_cases j marker_offset) as [Ej | Ej]; rewrite Ej in H;
      cbn [bind] in H; try discriminate.
    destruct (float_add_cases i marker_offset) as [Ei | Ei]; rewrite Ei in H;
      cbn [bind] in H; try discriminate.
    destruct (color_of_proc log_ceil hsv_to_rgb p) as [c|e|] eqn:C; cbn [bind] in H;
      try discriminate.
    apply IH in H as (Hx & Hy & more_entries & more_patches & E1 & E2 & L & F).
    cbn [add_patch xlim ylim patches] in *.
    repeat split; try assumption.
    exists ((i, j, p) :: more_entries), (square i j c :: more_patches).
    rewrite E1, E2, <- !app_assoc. cbn [app List.length].
    repeat split; [congruence|].
    constructor; [|assumption]. cbn. now exists c.
Qed.

(** One turn of the loop on an entry with a row and a column below
    [2 ^ 31] and an id that has a colour: both additions go through and
    the square of the entry is added. *)
Lemma data_loop_turn (count : nat) (fin line fin' : string) (ax : Axes)
      (seen : list (Z * Z * Z)) (i j p : Z) (c : triple) :
  readline fin = (line, fin') ->
  parse_triple line = Ok (i, j, p) ->
  Z.abs i < 2 ^ 31 -> Z.abs j < 2 ^ 31 ->
  color_of_proc log_ceil hsv_to_rgb p = Ok c ->
  data_loop log_ceil hsv_to_rgb (S count) fin ax seen
  = data_loop log_ceil hsv_to_rgb count fin' (add_patch ax (square i j c))
              (seen ++ [(i, j, p)]).
Proof.
  intros R P Hi Hj C.
  cbn [data_loop]. rewrite R, P. cbn [bind].
  rewrite (float_add_ok j) by now apply index_below_limit.
  rewrite (float_add_ok i) by now apply index_below_limit.
  cbn [bind]. rewrite C. reflexivity.
Qed.

(** The loop completes when every line it reads unpacks into a row and a
    column below [2 ^ 31] and a processor id that has a colour. *)
Lemma data_loop_completes (count : nat) :
  forall (fin : string) (ax : Axes) (seen : list (Z * Z * Z)),
    (forall k, (k < count)%nat ->
               exists i j p,
                 parse_triple (nth k (lines fin) "") = Ok (i, j, p) /\
                 Z.abs i < 2 ^ 31 /\ Z.abs j < 2 ^ 31 /\
                 succeeds (color_of_proc log_ceil hsv_to_rgb p)) ->
    succeeds (data_loop log_ceil hsv_to_rgb count fin ax seen).
Proof.
  induction count as [|count IH]; intros fin ax seen H.
  - now eexists.
  - destruct (readline fin) as [line fin'] eqn:R.
    destruct (readline_head fin line fin' R) as [Hl Ht].
    destruct (H 0%nat) as (i & j & p & P & Hi & Hj & c & C); [lia|].
    rewrite <- Hl in P.
    rewrite (data_loop_turn count fin line fin' ax seen i j p c R P Hi Hj C).
    apply IH. intros k Hk. rewrite Ht, nth_tl. apply H. lia.
Qed.

(** The entries of a completed loop are the triples of the lines read, in
    reading order. *)
Lemma data_loop_reads (count : nat) :
  forall (fin : string) (ax ax' : Axes) (seen seen' : list (Z * Z * Z)),
    data_loop log_ceil hsv_to_rgb count fin ax seen = Ok (ax', seen') ->
    map Ok seen' =
      (map Ok seen
         ++ map (fun k => parse_triple (nth k (lines fin) "")) (seq 0 count))%list.
Proof.
  induction count as [|count IH]; intros fin ax ax' seen seen' H.
  - cbn in H. injection H as <- <-. cbn. now rewrite app_nil_r.
  - cbn [data_loop] in H. destruct (readline fin) as [line fin'] eqn:R.
    destruct (readline_head fin line fin' R) as [Hl Ht].
    destruct (parse_triple line) as [[[i j] p]|e|] eqn:P; cbn [bind] in H;
      try discriminate.
    destruct (float_add j marker_offset) as [x|e|]; cbn [bind] in H;
      try discriminate.
    destruct (float_add i marker_offset) as [y|e|]; cbn [bind] in H;
      try discriminate.
    destruct (color_of_proc log_ceil hsv_to_rgb p) as [c|e|]; cbn [bind] in H;
      try discriminate.
    apply IH in H. rewrite H, map_app, <- app_assoc. f_equal.
    cbn [map app seq]. rewrite <- Hl, P. f_equal.
    rewrite <- seq_shift, map_map. apply map_ext.
    intros k. now rewrite Ht, nth_tl.
Qed.

(** C6. Once the header has been read, a data section that is malformed
    makes the run fail: if one of the [nz] data lines has fewer than
    three whitespace-separated fields, or a field that is not an integer
    literal, or is missing because the text ends before it, the script
    raises an exception instead of completing. *)
Theorem malformed_data_raises
        (fuel : nat) (file ttl fin dims data : string) (m n nz : Z) (k : nat) :
  skip_comments fuel (fst (readline file)) (snd (readline file)) = Ok (ttl, fin) ->
  readline fin = (dims, data) ->
  parse_triple dims = Ok (m, n, nz) ->
  (k < Z.to_nat nz)%nat ->
  (List.length (fields (nth k (lines data) "")) < 3)%nat \/
  (exists tok, In tok (fields (nth k (lines data) "")) /\ int_literal tok = None) \/
  (List.length (lines data) <= k)%nat ->
  raises (main log_ceil hsv_to_rgb fuel file).
Proof.
  intros Hskip Hdims Hparse Hk Hbad.
  rewrite main_eq. unfold read_and_plot.
  destruct (readline file) as [line0 fin0]. cbn [fst snd] in Hskip.
  rewrite Hskip. cbn [bind]. rewrite Hdims, Hparse. cbn [bind].
  destruct (data_loop_malformed (Z.to_nat nz) k data
              {| xlim := (1, n); ylim := (m, 1); patches := [] |} [] Hk)
    as [e E].
  - destruct Hbad as [H | [H | H]].
    + now left.
    + now right.
    + rewrite (nth_past_end k _ H). apply malformed_eof.
  - rewrite E. now exists e.
Qed.

End DataLoop.

Lemma malformed_data_raises_witness :
  raises (main log_ceil_sample hsv_to_rgb_hexcone 0 Samples.short_data).
Proof.
  apply (malformed_data_raises log_ceil_sample hsv_to_rgb_hexcone 0 Samples.short_data
           ("Title" ++ Text.nl)%string
           ("4 4 5" ++ Text.nl ++ "1 1 0" ++ Text.nl ++ "2 2 1" ++ Text.nl
              ++ "3 3 2" ++ Text.nl)%string
           ("4 4 5" ++ Text.nl)%string
           ("1 1 0" ++ Text.nl ++ "2 2 1" ++ Text.nl ++ "3 3 2" ++ Text.nl)%string
           4 4 5 3).
  - reflexivity.
  - reflexivity.
  - reflexivity.
  - simpl. lia.
  - right. right. simpl. lia.
Defined.

(* ================================================================= *)
(** ** Completed runs *)

Section CompletedRuns.

Import Text.
Local Open Scope string_scope.

Variable log_ceil : Z -> N.
Variable hsv_to_rgb : triple -> triple.

Lemma marker_offset_value : marker_offset = Q2Qc 0.1.
Proof. apply Qc_is_canon. reflexivity. Qed.

Lemma marker_offset_centres :
  (marker_offset = (1 - marker_size) / Z2Qc 2 /\
   marker_offset + marker_size / Z2Qc 2 = Q2Qc 0.5)%Qc.
Proof. split; apply Qc_is_canon; reflexivity. Qed.

(** Each square added by the loop sits in the middle of its unit cell. *)
Lemma drawn_squares_centred (es : list (Z * Z * Z)) (rs : list Rectangle) :
  Forall2 (drawn log_ceil hsv_to_rgb) es rs ->
  Forall2
    (fun (entry : Z * Z * Z) (r : Rectangle) =>
       let '(row, col, proc) := entry in
       rect_xy r = (Z2Qc col + marker_offset, Z2Qc row + marker_offset)%Qc /\
       rect_width r = marker_size /\
       rect_height r = marker_size /\
       (fst (rect_xy r) + rect_width r / Z2Qc 2 = Z2Qc col + Q2Qc 0.5)%Qc /\
       (snd (rect_xy r) + rect_height r / Z2Qc 2 = Z2Qc row + Q2Qc 0.5)%Qc /\
       color_of_proc log_ceil hsv_to_rgb proc = Ok (rect_color r))
    es rs.
Proof.
  destruct marker_offset_centres as [_ Hmid].
  induction 1 as [|[[row col] proc] r es rs (c & C & ->) F IH];
    constructor; [|exact IH].
  cbn [square rect_xy rect_width rect_height rect_color fst snd].
  repeat split; try assumption.
  - rewrite <- Hmid. ring.
  - rewrite <- Hmid. ring.
Qed.

(** C9, for entries that the float arithmetic of the script handles
    without overflow or visible rounding.  When the header has been read
    and each of the [count] data lines unpacks into [(row, col, proc)]
    with [row] and [col] below [2 ^ 31] in absolute value and a [proc]
    for which the colour mapper returns a colour, as it does for every
    id from 0 to [2 ^ 29 - 2], the run completes; its entries are the
    triples of the data lines in order, and every entry has its square,
    in the same order: side [marker_size = 0.8], corner at
    [(col + offset, row + offset)] with
    [offset = (1 - marker_size) / 2 = 0.1], so that the middle of the
    square is the middle of the unit cell, filled with the colour of
    [proc].  The limits are [[1, cols]] for x and [[rows, 1]] for y. *)
Theorem squares_and_limits
        (fuel : nat) (file ttl fin dims data : string) (rows cols count : Z) :
  skip_comments fuel (fst (readline file)) (snd (readline file)) = Ok (ttl, fin) ->
  readline fin = (dims, data) ->
  parse_triple dims = Ok (rows, cols, count) ->
  (forall k, (k < Z.to_nat count)%nat ->
             exists i j p,
               parse_triple (nth k (lines data) "") = Ok (i, j, p) /\
               Z.abs i < 2 ^ 31 /\ Z.abs j < 2 ^ 31 /\
               succeeds (color_of_proc log_ceil hsv_to_rgb p)) ->
  (forall p : Z,
      0 <= p < 2 ^ 29 - 1 -> succeeds (color_of_proc log_ceil hsv_to_rgb p)) /\
  exists plot,
    main log_ceil hsv_to_rgb fuel file = Ok plot /\
    map Ok (entries plot) =
      map (fun k => parse_triple (nth k (lines data) "")) (seq 0 (Z.to_nat count)) /\
    marker_size = Q2Qc 0.8 /\
    marker_offset = Q2Qc 0.1 /\
    marker_offset = ((1 - marker_size) / Z2Qc 2)%Qc /\
    xlim (ax plot) = (1, cols) /\
    ylim (ax plot) = (rows, 1) /\
    Forall2
      (fun (entry : Z * Z * Z) (r : Rectangle) =>
         let '(row, col, proc) := entry in
         rect_xy r = (Z2Qc col + marker_offset, Z2Qc row + marker_offset)%Qc /\
         rect_width r = marker_size /\
         rect_height r = marker_size /\
         (fst (rect_xy r) + rect_width r / Z2Qc 2 = Z2Qc col + Q2Qc 0.5)%Qc /\
         (snd (rect_xy r) + rect_height r / Z2Qc 2 = Z2Qc row + Q2Qc 0.5)%Qc /\
         color_of_proc log_ceil hsv_to_rgb proc = Ok (rect_color r))
      (entries plot) (patches (ax plot)).
Proof.
  intros Hskip Hdims Hparse Hdata.
  split; [apply color_of_proc_ok|].
  rewrite main_eq. unfold read_and_plot.
  destruct (readline file) as [line0 fin0]. cbn [fst snd] in Hskip.
  rewrite Hskip. cbn [bind]. rewrite Hdims, Hparse. cbn [bind].
  destruct (data_loop_completes log_ceil hsv_to_rgb (Z.to_nat count) data
              {| xlim := (1, cols); ylim := (rows, 1); patches := [] |} [] Hdata)
    as [[ax' seen] D].
  rewrite D. cbn [bind]. eexists. split; [reflexivity|].
  cbn [entries ax].
  pose proof (data_loop_reads log_ceil hsv_to_rgb _ _ _ _ _ _ D) as Hread.
  apply data_loop_draws in D
    as (Hx & Hy & new_entries & new_patches & E1 & E2 & L & F).
  cbn [xlim ylim patches app map] in *. subst seen. rewrite E2.
  destruct marker_offset_centres as [Hoff _].
  split; [assumption|]. split; [reflexivity|].
  split; [exact marker_offset_value|].
  repeat split; try assumption.
  now apply drawn_squares_centred.
Qed.

(** The run on the end-to-end sample, step by step. *)
Lemma end_to_end_run (fuel : nat) (c0 c1 : triple) :
  (1 <= fuel)%nat ->
  color_of_proc log_ceil hsv_to_rgb 0 = Ok c0 ->
  color_of_proc log_ceil hsv_to_rgb 1 = Ok c1 ->
  main log_ceil hsv_to_rgb fuel Samples.end_to_end =
    Ok {| title := "Title" ++ nl;
          m := 3; n := 3; nz := 2;
          entries := [(1, 1, 0); (2, 2, 1)];
          ax := {| xlim := (1, 3); ylim := (3, 1);
                   patches := [square 1 1 c0; square 2 2 c1] |} |}.
Proof.
  intros Hfuel E0 E1.
  rewrite main_eq. unfold read_and_plot.
  destruct fuel as [|fuel]; [lia|].
  replace (readline Samples.end_to_end)
    with ("# test" ++ nl,
          "Title" ++ nl ++ "3 3 2" ++ nl ++ "1 1 0" ++ nl ++ "2 2 1" ++ nl)
    by reflexivity.
  cbn [skip_comments]. change (skipped ("# test" ++ nl)) with true. cbv iota.
  replace (readline ("Title" ++ nl ++ "3 3 2" ++ nl ++ "1 1 0" ++ nl ++ "2 2 1" ++ nl))
    with ("Title" ++ nl, "3 3 2" ++ nl ++ "1 1 0" ++ nl ++ "2 2 1" ++ nl)
    by reflexivity.
  rewrite skip_comments_stops by reflexivity. cbn [bind].
  replace (readline ("3 3 2" ++ nl ++ "1 1 0" ++ nl ++ "2 2 1" ++ nl))
    with ("3 3 2" ++ nl, "1 1 0" ++ nl ++ "2 2 1" ++ nl) by reflexivity.
  change (parse_triple ("3 3 2" ++ nl)) with (@Ok (Z * Z * Z) (3, 3, 2)).
  cbn [bind]. change (Z.to_nat 2) with 2%nat. cbn [data_loop].
  replace (readline ("1 1 0" ++ nl ++ "2 2 1" ++ nl))
    with ("1 1 0" ++ nl, "2 2 1" ++ nl) by reflexivity.
  change (parse_triple ("1 1 0" ++ nl)) with (@Ok (Z * Z * Z) (1, 1, 0)).
  cbn [bind]. rewrite (float_add_ok 1) by reflexivity. cbn [bind].
  rewrite E0. cbn [bind].
  replace (readline ("2 2 1" ++ nl)) with ("2 2 1" ++ nl, "") by reflexivity.
  change (parse_triple ("2 2 1" ++ nl)) with (@Ok (Z * Z * Z) (2, 2, 1)).
  cbn [bind]. rewrite (float_add_ok 2) by reflexivity. cbn [bind].
  rewrite E1. reflexivity.
Qed.

(** The run on the sample with an entry in column [2 ^ 1024]: the entry
    is read, and the addition of line 87 overflows. *)
Lemma far_column_run (fuel : nat) :
  main log_ceil hsv_to_rgb fuel Samples.far_column = Raise OverflowError.
Proof.
  rewrite main_eq. unfold read_and_plot.
  replace (readline Samples.far_column)
    with ("Title" ++ nl, "1 1 1" ++ nl ++ Samples.far_column_entry)
    by reflexivity.
  rewrite skip_comments_stops by reflexivity. cbn [bind].
  replace (readline ("1 1 1" ++ nl ++ Samples.far_column_entry))
    with ("1 1 1" ++ nl, Samples.far_column_entry) by reflexivity.
  change (parse_triple ("1 1 1" ++ nl)) with (@Ok (Z * Z * Z) (1, 1, 1)).
  cbn [bind]. change (Z.to_nat 1) with 1%nat. cbn [data_loop].
  replace (readline Samples.far_column_entry)
    with (Samples.far_column_entry, "") by reflexivity.
  replace (parse_triple Samples.far_column_entry)
    with (@Ok (Z * Z * Z) (1, 2 ^ 1024, 0)) by (vm_compute; reflexivity).
  cbn [bind]. rewrite float_add_overflow by (vm_compute; discriminate).
  reflexivity.
Qed.

(** Without fuel the run is still inside the loop that skips the
    comment line. *)
Lemma end_to_end_no_fuel :
  main log_ceil hsv_to_rgb 0 Samples.end_to_end = Timeout.
Proof. rewrite main_eq. reflexivity. Qed.

(** C8, as the script behaves.  On the end-to-end sample, with fuel for
    the one comment line, the run completes with rows 3, columns 3,
    nonzero count 2, the entries (1,1,0) and (2,2,1) in this order, and
    one square per entry filled with the colour of processor 0 and of
    processor 1; the title is the whole title line, the text "Title"
    followed by its line feed. *)
Theorem end_to_end_plot (fuel : nat) :
  (1 <= fuel)%nat ->
  exists c0 c1,
    color_of_proc log_ceil hsv_to_rgb 0 = Ok c0 /\
    color_of_proc log_ceil hsv_to_rgb 1 = Ok c1 /\
    main log_ceil hsv_to_rgb fuel Samples.end_to_end =
      Ok {| title := "Title" ++ nl;
            m := 3; n := 3; nz := 2;
            entries := [(1, 1, 0); (2, 2, 1)];
            ax := {| xlim := (1, 3); ylim := (3, 1);
                     patches := [square 1 1 c0; square 2 2 c1] |} |}.
Proof.
  intros Hfuel.
  destruct (color_of_proc_ok log_ceil hsv_to_rgb 0) as [c0 E0];
    [split; [lia | reflexivity]|].
  destruct (color_of_proc_ok log_ceil hsv_to_rgb 1) as [c1 E1];
    [split; [lia | reflexivity]|].
  exists c0, c1. split; [exact E0|]. split; [exact E1|].
  now apply end_to_end_run.
Qed.

End CompletedRuns.

(** C8, as worded: the title of the completed run is not the bare text
    "Title". *)
Lemma end_to_end_title_counterexample :
  ~ exists fuel plot,
      main log_ceil_sample hsv_to_rgb_hexcone fuel Samples.end_to_end = Ok plot /\
      title plot = "Title"%string /\
      m plot = 3 /\ n plot = 3 /\ nz plot = 2 /\
      entries plot = [(1, 1, 0); (2, 2, 1)].
Proof.
  intros (fuel & plot & H & T & _).
  destruct fuel as [|fuel].
  - rewrite end_to_end_no_fuel in H. discriminate.
  - destruct (color_of_proc_ok log_ceil_sample hsv_to_rgb_hexcone 0) as [c0 E0];
    [split; [lia | reflexivity]|].
    destruct (color_of_proc_ok log_ceil_sample hsv_to_rgb_hexcone 1) as [c1 E1];
    [split; [lia | reflexivity]|].
    rewrite (end_to_end_run log_ceil_sample hsv_to_rgb_hexcone (S fuel) c0 c1) in H
      by (assumption || lia).
    injection H as <-. cbn [title] in T. discriminate.
Qed.

Lemma end_to_end_plot_witness :
  exists c0 c1,
    color_of_proc log_ceil_sample hsv_to_rgb_hexcone 0 = Ok c0 /\
    color_of_proc log_ceil_sample hsv_to_rgb_hexcone 1 = Ok c1 /\
    main log_ceil_sample hsv_to_rgb_hexcone 1 Samples.end_to_end =
      Ok {| title := "Title" ++ Text.nl;
            m := 3; n := 3; nz := 2;
            entries := [(1, 1, 0); (2, 2, 1)];
            ax := {| xlim := (1, 3); ylim := (3, 1);
                     patches := [square 1 1 c0; square 2 2 c1] |} |}.
Proof. apply (end_to_end_plot log_ceil_sample hsv_to_rgb_hexcone 1). lia. Defined.

Lemma squares_and_limits_witness :
  exists plot,
    main log_ceil_sample hsv_to_rgb_hexcone 1 Samples.end_to_end = Ok plot /\
    map Ok (entries plot) =
      [Ok (1, 1, 0); Ok (2, 2, 1)] /\
    xlim (ax plot) = (1, 3) /\
    ylim (ax plot) = (3, 1).
Proof.
  destruct (squares_and_limits log_ceil_sample hsv_to_rgb_hexcone 1 Samples.end_to_end
              ("Title" ++ Text.nl)%string
              ("3 3 2" ++ Text.nl ++ "1 1 0" ++ Text.nl ++ "2 2 1" ++ Text.nl)%string
              ("3 3 2" ++ Text.nl)%string
              ("1 1 0" ++ Text.nl ++ "2 2 1" ++ Text.nl)%string
              3 3 2)
    as (_ & plot & R & E & _ & _ & _ & Hx & Hy & _).
  - reflexivity.
  - reflexivity.
  - reflexivity.
  - intros k Hk. destruct k as [|[|k]].
    + exists 1, 1, 0. split; [reflexivity|]. split; [reflexivity|].
      split; [reflexivity|]. eexists. vm_compute. reflexivity.
    + exists 2, 2, 1. split; [reflexivity|]. split; [reflexivity|].
      split; [reflexivity|]. eexists. vm_compute. reflexivity.
    + simpl in Hk. lia.
  - exists plot. repeat split; assumption.
Defined.

(** C9, as worded: the one entry of this sample is parsed, in row 1 and
    column [2 ^ 1024] for processor 0, and no square is drawn for it: the
    addition of line 87 overflows and the run ends there, whatever the
    parameters and the fuel. *)
Lemma far_column_counterexample :
  Text.parse_triple Samples.far_column_entry = Ok (1, 2 ^ 1024, 0) /\
  ~ exists (log_ceil : Z -> N) (hsv_to_rgb : triple -> triple)
           (fuel : nat) (plot : Plot),
      main log_ceil hsv_to_rgb fuel Samples.far_column = Ok plot.
Proof.
  split; [vm_compute; reflexivity|].
  intros (log_ceil & hsv_to_rgb & fuel & plot & H).
  rewrite far_column_run in H. discriminate H.
Qed.

(* ================================================================= *)
(** * Further properties of the script *)

(* ================================================================= *)
(** ** The hue, level by level *)

Section HueByLevel.

Local Open Scope Qc_scope.

Variable log_ceil : Z -> N.

(** The [i]-th id of level [l]: its level and the numerator of its hue. *)
Lemma hue_numerator_at_level (l i : Z) :
  (1 <= l)%Z -> (0 <= i < 2 ^ (l - 1))%Z ->
  Z.log2_up (2 ^ (l - 1) + i + 1) = l /\
  hue_numerator (2 ^ (l - 1) + i) =
    (if 2 * (2 * i + 1) <? 2 ^ l
     then 2 * (2 * i + 1) + 2 ^ l else 2 * (2 * i + 1) - 2 ^ l)%Z.
Proof.
  intros Hl Hi.
  assert (E : (2 ^ l = 2 * 2 ^ (l - 1))%Z).
  { rewrite <- Z.pow_succ_r by lia. f_equal. lia. }
  assert (L : Z.log2_up (2 ^ (l - 1) + i + 1) = l).
  { apply level_unique; lia. }
  split; [exact L|].
  unfold hue_numerator, raw_numerator. rewrite L.
  replace (2 * (2 ^ (l - 1) + i) + 1 - 2 ^ l)%Z with (2 * i + 1)%Z by lia.
  reflexivity.
Qed.

(** X1. The ids of level [l >= 1] are [2 ^ (l - 1) + i] for
    [0 <= i < 2 ^ (l - 1)]; up to level 28 the [i]-th of them is placed at
    the odd fraction [(2 i + 1) / 2 ^ l] of the tree drawn in the header
    of the script, turned by half a turn: one half is added when the
    fraction is below one half and subtracted otherwise. *)
Theorem hue_by_level_and_index (l i : Z) :
  (1 <= l <= 28)%Z -> (0 <= i < 2 ^ (l - 1))%Z ->
  hue_of_proc log_ceil (2 ^ (l - 1) + i) =
    Ok (if (2 * (2 * i + 1) <? 2 ^ l)%Z
        then Z2Qc (2 * i + 1) / Z2Qc (2 ^ l) + Q2Qc 0.5
        else Z2Qc (2 * i + 1) / Z2Qc (2 ^ l) - Q2Qc 0.5).
Proof.
  intros Hl Hi.
  destruct (hue_numerator_at_level l i (proj1 Hl) Hi) as [L H].
  assert (Hd : (0 < 2 ^ l)%Z) by (apply Z.pow_pos_nonneg; lia).
  assert (Hd' : (0 < 2 ^ (l - 1))%Z) by (apply Z.pow_pos_nonneg; lia).
  assert (E : (2 ^ l = 2 * 2 ^ (l - 1))%Z).
  { rewrite <- Z.pow_succ_r by lia. f_equal. lia. }
  rewrite hue_closed_form
    by (apply small_exactly_placed, (level_ids_small l); lia).
  rewrite L, H. f_equal.
  assert (N : Z2Qc (2 ^ l) <> 0) by (apply Z2Qc_nonzero; lia).
  assert (N2 : 1 + 1 <> 0) by (rewrite <- Z2Qc_2; apply Z2Qc_nonzero; lia).
  destruct (2 * (2 * i + 1) <? 2 ^ l)%Z.
  - rewrite Z2Qc_plus, !Z2Qc_mult, Z2Qc_2, half_is. field. split; assumption.
  - rewrite Z2Qc_minus, !Z2Qc_mult, Z2Qc_2, half_is. field. split; assumption.
Qed.

Lemma hue_value (proc h d : Z) :
  (0 <= proc < 2 ^ 29 - 1)%Z -> (0 < d)%Z ->
  (hue_numerator proc * d = h * (2 * 2 ^ Z.log2_up (proc + 1)))%Z ->
  hue_of_proc log_ceil proc = Ok (Z2Qc h / Z2Qc d).
Proof.
  intros Hp Hd E.
  rewrite hue_closed_form by (now apply small_exactly_placed). f_equal.
  pose proof (pow2_level_pos proc) as P.
  assert (N1 : Z2Qc (2 * 2 ^ Z.log2_up (proc + 1)) <> 0)
    by (apply Z2Qc_nonzero; lia).
  assert (N2 : Z2Qc d <> 0) by (apply Z2Qc_nonzero; lia).
  apply (f_equal Z2Qc) in E.
  rewrite (Z2Qc_mult (hue_numerator proc) d), (Z2Qc_mult h) in E.
  set (x := Z2Qc (hue_numerator proc)) in *.
  set (y := Z2Qc (2 * 2 ^ Z.log2_up (proc + 1))) in *.
  transitivity (x * Z2Qc d / (y * Z2Qc d)); [field; split; assumption|].
  rewrite E. field. split; assumption.
Qed.

(** Every multiple of [1 / 2 ^ L] is reached, as an equation between
    integer numerators. *)
Lemma fill_numerators (n : nat) :
  forall j : Z,
    (0 <= j < 2 ^ Z.of_nat (S n))%Z ->
    exists proc : Z,
      (0 <= proc < 2 ^ Z.of_nat (S n))%Z /\
      (hue_numerator proc * 2 ^ Z.of_nat (S n)
       = j * (2 * 2 ^ Z.log2_up (proc + 1)))%Z.
Proof.
  induction n as [|n IH]; intros j Hj.
  - change (2 ^ Z.of_nat 1)%Z with 2%Z in *.
    assert (C : j = 0%Z \/ j = 1%Z) by lia. destruct C as [-> | ->].
    + exists 1%Z. split; [lia | reflexivity].
    + exists 0%Z. split; [lia | reflexivity].
  - set (L := Z.of_nat (S n)) in *.
    assert (HL : (1 <= L)%Z) by (subst L; lia).
    replace (Z.of_nat (S (S n))) with (L + 1)%Z in * by (subst L; lia).
    assert (E1 : (2 ^ (L + 1) = 2 * 2 ^ L)%Z).
    { rewrite <- Z.pow_succ_r by lia. f_equal. }
    assert (E0 : (2 ^ L = 2 * 2 ^ (L - 1))%Z).
    { rewrite <- Z.pow_succ_r by lia. f_equal. lia. }
    assert (P0 : (0 < 2 ^ (L - 1))%Z) by (apply Z.pow_pos_nonneg; lia).
    destruct (Z.Even_or_Odd j) as [[a Ha] | [a Ha]].
    + destruct (IH a) as (proc & Hp & E); [lia|].
      exists proc. split; [lia|]. rewrite E1, Ha. lia.
    + destruct (Z_lt_le_dec j (2 ^ L)) as [Lo | Hi].
      * destruct (hue_numerator_at_level (L + 1) (a + 2 ^ (L - 1)))
          as [Lev H]; [lia | replace (L + 1 - 1)%Z with L by lia; lia |].
        replace (L + 1 - 1)%Z with L in * by lia.
        exists (2 ^ L + (a + 2 ^ (L - 1)))%Z. split; [lia|].
        rewrite H, Lev.
        replace (2 * (2 * (a + 2 ^ (L - 1)) + 1) <? 2 ^ (L + 1))%Z with false
          by (symmetry; apply Z.ltb_ge; lia).
        nia.
      * destruct (hue_numerator_at_level (L + 1) (a - 2 ^ (L - 1)))
          as [Lev H]; [lia | replace (L + 1 - 1)%Z with L by lia; lia |].
        replace (L + 1 - 1)%Z with L in * by lia.
        exists (2 ^ L + (a - 2 ^ (L - 1)))%Z. split; [lia|].
        rewrite H, Lev.
        replace (2 * (2 * (a - 2 ^ (L - 1)) + 1) <? 2 ^ (L + 1))%Z with true
          by (symmetry; apply Z.ltb_lt; lia).
        nia.
Qed.

(** X2. The first [2 ^ L] ids sample the hue circle uniformly: for every
    [L] from 1 to 28 each of the [2 ^ L] hues [j / 2 ^ L],
    [0 <= j < 2 ^ L], is the hue of an id below [2 ^ L]. *)
Theorem first_ids_fill_circle (L j : Z) :
  (1 <= L <= 28)%Z -> (0 <= j < 2 ^ L)%Z ->
  exists proc : Z,
    (0 <= proc < 2 ^ L)%Z /\
    hue_of_proc log_ceil proc = Ok (Z2Qc j / Z2Qc (2 ^ L)).
Proof.
  intros HL Hj.
  assert (B : (2 ^ L <= 2 ^ 28)%Z) by (apply Z.pow_le_mono_r; lia).
  assert (B' : (2 ^ 28 < 2 ^ 29 - 1)%Z) by reflexivity.
  replace L with (Z.of_nat (S (Z.to_nat (L - 1)))) in * by lia.
  destruct (fill_numerators _ j Hj) as (proc & Hp & E).
  exists proc. split; [exact Hp|].
  apply hue_value; [lia | apply Z.pow_pos_nonneg; lia | exact E].
Qed.

End HueByLevel.

Lemma hue_by_level_and_index_witness :
  hue_of_proc log_ceil_sample (2 ^ (3 - 1) + 1) =
    Ok (if (2 * (2 * 1 + 1) <? 2 ^ 3)%Z
        then Z2Qc (2 * 1 + 1) / Z2Qc (2 ^ 3) + Q2Qc 0.5
        else Z2Qc (2 * 1 + 1) / Z2Qc (2 ^ 3) - Q2Qc 0.5)%Qc.
Proof. apply (hue_by_level_and_index log_ceil_sample 3 1); simpl; lia. Defined.

Lemma first_ids_fill_circle_witness :
  exists proc : Z,
    (0 <= proc < 2 ^ 3)%Z /\
    hue_of_proc log_ceil_sample proc = Ok (Z2Qc 5 / Z2Qc (2 ^ 3))%Qc.
Proof. apply (first_ids_fill_circle log_ceil_sample 3 5); simpl; lia. Defined.

(* ================================================================= *)
(** ** Runs: what is read, and when a run ends *)

Section RunFacts.

Import Text.
Local Open Scope string_scope.

Variable log_ceil : Z -> N.
Variable hsv_to_rgb : triple -> triple.

Lemma color_of_proc_negative (p : Z) :
  p < 0 -> color_of_proc log_ceil hsv_to_rgb p = Raise ValueError_math_domain.
Proof.
  intros Hp. unfold color_of_proc.
  now rewrite (hue_of_proc_negative log_ceil p Hp).
Qed.

Lemma parse_triple_eof : parse_triple "" = Raise (ValueError_int "").
Proof. reflexivity. Qed.

Lemma data_loop_not_timeout (count : nat) :
  forall (fin : string) (ax : Axes) (seen : list (Z * Z * Z)),
    data_loop log_ceil hsv_to_rgb count fin ax seen <> Timeout.
Proof.
  induction count as [|count IH]; intros fin ax seen; [discriminate|].
  cbn [data_loop]. destruct (readline fin) as [line fin'].
  destruct (parse_triple line) as [[[i j] p]|e|] eqn:P; cbn [bind];
    [|discriminate|now apply parse_triple_not_timeout in P].
  destruct (float_add_cases j marker_offset) as [-> | ->]; cbn [bind];
    [|discriminate].
  destruct (float_add_cases i marker_offset) as [-> | ->]; cbn [bind];
    [|discriminate].
  destruct (color_of_proc log_ceil hsv_to_rgb p) as [c|e|] eqn:C; cbn [bind];
    [apply IH|discriminate|now apply color_of_proc_not_timeout in C].
Qed.

(** The first data line with a negative processor id stops the loop,
    the rows and columns read so far being below [2 ^ 31] and the ids
    before it having a colour. *)
Lemma data_loop_negative (count : nat) :
  forall (k : nat) (fin : string) (ax : Axes) (seen : list (Z * Z * Z)),
    (k < count)%nat ->
    (forall k', (k' < k)%nat ->
                exists i j p,
                  parse_triple (nth k' (lines fin) "") = Ok (i, j, p) /\
                  Z.abs i < 2 ^ 31 /\ Z.abs j < 2 ^ 31 /\
                  succeeds (color_of_proc log_ceil hsv_to_rgb p)) ->
    (exists i j p,
        parse_triple (nth k (lines fin) "") = Ok (i, j, p) /\
        Z.abs i < 2 ^ 31 /\ Z.abs j < 2 ^ 31 /\ p < 0) ->
    data_loop log_ceil hsv_to_rgb count fin ax seen = Raise ValueError_math_domain.
Proof.
  induction count as [|count IH]; intros k fin ax seen Hk Hgood Hneg; [lia|].
  destruct (readline fin) as [line fin'] eqn:R.
  destruct (readline_head fin line fin' R) as [Hl Ht].
  destruct k as [|k].
  - destruct Hneg as (i & j & p & P & Hi & Hj & Hp). rewrite <- Hl in P.
    cbn [data_loop]. rewrite R, P. cbn [bind].
    rewrite (float_add_ok j) by now apply index_below_limit.
    rewrite (float_add_ok i) by now apply index_below_limit.
    cbn [bind]. now rewrite color_of_proc_negative.
  - destruct (Hgood 0%nat) as (i & j & p & P & Hi & Hj & c & C); [lia|].
    rewrite <- Hl in P.
    rewrite (data_loop_turn log_ceil hsv_to_rgb count fin line fin' ax seen
               i j p c R P Hi Hj C).
    apply (IH k); [lia | |].
    + intros k' Hk'. rewrite Ht, nth_tl. apply Hgood. lia.
    + now rewrite Ht, nth_tl.
Qed.

(** X3. A processor id below zero in a data line ends the run with the
    "math domain error" of [math.log]: when the header has been read and
    the data lines before line [k] unpack into rows and columns below
    [2 ^ 31] in absolute value and ids that have a colour, a line [k]
    among the [nz] declared ones that unpacks into such a row and column
    and a negative id makes the script raise that [ValueError]. *)
Theorem negative_proc_aborts
        (fuel : nat) (file ttl fin dims data : string) (rows cols count : Z)
        (k : nat) :
  skip_comments fuel (fst (readline file)) (snd (readline file)) = Ok (ttl, fin) ->
  readline fin = (dims, data) ->
  parse_triple dims = Ok (rows, cols, count) ->
  (k < Z.to_nat count)%nat ->
  (forall k', (k' < k)%nat ->
              exists i j p,
                parse_triple (nth k' (lines data) "") = Ok (i, j, p) /\
                Z.abs i < 2 ^ 31 /\ Z.abs j < 2 ^ 31 /\
                succeeds (color_of_proc log_ceil hsv_to_rgb p)) ->
  (exists i j p,
      parse_triple (nth k (lines data) "") = Ok (i, j, p) /\
      Z.abs i < 2 ^ 31 /\ Z.abs j < 2 ^ 31 /\ p < 0) ->
  main log_ceil hsv_to_rgb fuel file = Raise ValueError_math_domain.
Proof.
  intros Hskip Hdims Hparse Hk Hgood Hneg.
  rewrite main_eq. unfold read_and_plot.
  destruct (readline file) as [line0 fin0]. cbn [fst snd] in Hskip.
  rewrite Hskip. cbn [bind]. rewrite Hdims, Hparse. cbn [bind].
  now rewrite (data_loop_negative (Z.to_nat count) k data _ _ Hk Hgood Hneg).
Qed.

(** X4. The loop of lines 63-64, which calls the colour mapper on the ids
    0 to 99 and drops the results, never raises, and neither would it on
    any other run of ids from 0 to [2 ^ 29 - 2]; the outcome of the
    script is the outcome of the block of lines 66-91. *)
Theorem warm_up_has_no_effect (fuel : nat) (file : string) :
  warm_up log_ceil hsv_to_rgb 0 100 = Ok tt /\
  (forall (i : Z) (count : nat),
      0 <= i -> i + Z.of_nat count <= 2 ^ 29 - 1 ->
      warm_up log_ceil hsv_to_rgb i count = Ok tt) /\
  main log_ceil hsv_to_rgb fuel file = read_and_plot log_ceil hsv_to_rgb fuel file.
Proof.
  split; [|split].
  - apply warm_up_ok; [lia | vm_compute; discriminate].
  - intros i count Hi Hc. now apply warm_up_ok.
  - apply main_eq.
Qed.

(** *** When the run ends *)

Lemma first_stop (l : list string) :
  Forall (fun x => skipped x = true) l \/
  exists cs t more,
    l = (cs ++ t :: more)%list /\
    Forall (fun x => skipped x = true) cs /\ skipped t = false.
Proof.
  induction l as [|x l IH]; [left; constructor|].
  destruct (skipped x) eqn:S.
  - destruct IH as [F | (cs & t & more & -> & F & T)].
    + left. now constructor.
    + right. exists (x :: cs), t, more. repeat split; [|assumption].
      now constructor.
  - right. exists [], x, l. repeat split; [constructor | assumption].
Qed.

Lemma after_header_not_timeout (fin : string) (ttl : string) :
  (let '(dims, fin') := readline fin in
   '(m, n, nz) <- parse_triple dims ;;
   let ax := {| xlim := (1, n); ylim := (m, 1); patches := [] |} in
   '(ax, seen) <- data_loop log_ceil hsv_to_rgb (Z.to_nat nz) fin' ax [] ;;
   Ok {| title := ttl; m := m; n := n; nz := nz; entries := seen; ax := ax |})
  <> Timeout.
Proof.
  destruct (readline fin) as [dims data].
  destruct (parse_triple dims) as [[[rows cols] count]|e|] eqn:P; cbn [bind];
    [|discriminate|now apply parse_triple_not_timeout in P].
  destruct (data_loop _ _ _ _ _ _) as [[ax' seen]|e|] eqn:D; cbn [bind];
    [discriminate|discriminate|now apply data_loop_not_timeout in D].
Qed.

Lemma skip_comments_more_fuel (fuel : nat) :
  forall (fuel' : nat) (line fin : string),
    skip_comments fuel line fin <> Timeout -> (fuel <= fuel')%nat ->
    skip_comments fuel' line fin = skip_comments fuel line fin.
Proof.
  induction fuel as [|fuel IH]; intros fuel' line fin H L.
  - cbn [skip_comments] in *. destruct (skipped line) eqn:S; [congruence|].
    now rewrite skip_comments_stops.
  - destruct fuel' as [|fuel']; [lia|]. cbn [skip_comments] in *.
    destruct (skipped line); [|reflexivity].
    destruct (readline fin) as [line' fin']. apply IH; [exact H | lia].
Qed.

(** X5. The script hangs exactly when every line of the file starts with
    ['#'] (the empty file included): then the run is still in the loop of
    lines 67-69 whatever the fuel.  As soon as one line does not start
    with ['#'], the run ends, by returning or by raising, once the fuel
    covers the comment lines before that line; and the outcome of a run
    that has ended is the same with any larger fuel. *)
Theorem run_hangs_iff_only_comments (file : string) :
  ((forall fuel, main log_ceil hsv_to_rgb fuel file = Timeout) <->
   Forall (fun line => skipped line = true) (lines file)) /\
  (forall (comments : list string) (t : string) (more : list string) (fuel : nat),
      lines file = (comments ++ t :: more)%list ->
      Forall (fun line => skipped line = true) comments ->
      skipped t = false ->
      (List.length comments <= fuel)%nat ->
      main log_ceil hsv_to_rgb fuel file <> Timeout) /\
  (forall fuel fuel' : nat,
      main log_ceil hsv_to_rgb fuel file <> Timeout -> (fuel <= fuel')%nat ->
      main log_ceil hsv_to_rgb fuel' file = main log_ceil hsv_to_rgb fuel file).
Proof.
  assert (Ends : forall (comments : list string) (t : string)
                        (more : list string) (fuel : nat),
             lines file = (comments ++ t :: more)%list ->
             Forall (fun line => skipped line = true) comments ->
             skipped t = false ->
             (List.length comments <= fuel)%nat ->
             main log_ceil hsv_to_rgb fuel file <> Timeout).
  { intros cs t more fuel E F T Hfuel. rewrite main_eq. unfold read_and_plot.
    destruct (readline file) as [line fin] eqn:R.
    assert (L : line :: lines fin = (cs ++ t :: more)%list).
    { rewrite <- E, (readline_lines file).
      destruct file as [|c file']; [now destruct cs|]. now rewrite R. }
    destruct (skip_comments_finds cs line fin t more fuel L F T Hfuel)
      as (fin' & S & _).
    rewrite S. cbn [bind]. apply after_header_not_timeout. }
  split; [split|split].
  - intros Hang. destruct (first_stop (lines file))
      as [F | (cs & t & more & E & F & T)]; [exact F|exfalso].
    apply (Ends cs t more (List.length cs) E F T (le_n _)). apply Hang.
  - intros F fuel. now apply all_comments_never_ends.
  - exact Ends.
  - clear Ends. intros fuel fuel' H L.
    rewrite (main_eq log_ceil hsv_to_rgb fuel file) in H.
    rewrite (main_eq log_ceil hsv_to_rgb fuel file), (main_eq log_ceil hsv_to_rgb fuel' file).
    unfold read_and_plot in *.
    destruct (readline file) as [line fin].
    assert (E : skip_comments fuel line fin <> Timeout ->
                skip_comments fuel' line fin = skip_comments fuel line fin).
    { intros N. now apply skip_comments_more_fuel. }
    destruct (skip_comments fuel line fin) as [[ttl fin']|e|].
    + rewrite E by discriminate. reflexivity.
    + rewrite E by discriminate. reflexivity.
    + now cbn [bind] in H.
Qed.

End RunFacts.

Lemma negative_proc_aborts_witness :
  main log_ceil_sample hsv_to_rgb_hexcone 0
       ("T" ++ Text.nl ++ "2 2 2" ++ Text.nl ++ "1 1 0" ++ Text.nl
            ++ "2 2 -1" ++ Text.nl)%string
  = Raise ValueError_math_domain.
Proof.
  apply (negative_proc_aborts log_ceil_sample hsv_to_rgb_hexcone 0 _
           ("T" ++ Text.nl)%string
           ("2 2 2" ++ Text.nl ++ "1 1 0" ++ Text.nl ++ "2 2 -1" ++ Text.nl)%string
           ("2 2 2" ++ Text.nl)%string
           ("1 1 0" ++ Text.nl ++ "2 2 -1" ++ Text.nl)%string
           2 2 2 1).
  - reflexivity.
  - reflexivity.
  - reflexivity.
  - simpl. lia.
  - intros k' Hk'. destruct k' as [|k']; [|lia].
    exists 1, 1, 0. split; [reflexivity|]. split; [reflexivity|].
    split; [reflexivity|]. eexists. vm_compute. reflexivity.
  - exists 2, 2, (-1). repeat split; vm_compute; congruence.
Defined.

(* ================================================================= *)
(** ** What a completed run has read *)

Section RunStructure.

Import Text.
Local Open Scope string_scope.

Variable log_ceil : Z -> N.
Variable hsv_to_rgb : triple -> triple.

(** In the list of lines every line but the last one ends with a line
    feed. *)
Lemma lines_inner_terminated (s : string) :
  forall (pre : list string) (a b : string) (post : list string),
    lines s = (pre ++ a :: b :: post)%list -> exists t, a = t ++ nl.
Proof.
  induction s as [|c rest IH]; intros pre a b post E.
  - now destruct pre.
  - cbn [lines] in E. destruct (c =? LF)%char eqn:C.
    + apply Ascii.eqb_eq in C. subst c. destruct pre as [|x pre].
      * injection E as <- _. now exists "".
      * injection E as _ E. now apply (IH pre a b post).
    + destruct (lines rest) as [|l more] eqn:R.
      * destruct pre as [|x [|y pre]]; discriminate.
      * destruct pre as [|x pre].
        -- injection E as <- E. destruct (IH [] l b post) as [t ->].
           { now rewrite E. }
           now exists (String c t).
        -- injection E as _ E. apply (IH (l :: pre) a b post).
           now rewrite E.
Qed.

(** What the loop of lines 67-69 has skipped when it stops. *)
Lemma skip_comments_skipped (fuel : nat) :
  forall line fin ttl fin' : string,
    skip_comments fuel line fin = Ok (ttl, fin') ->
    exists comments,
      line :: lines fin = (comments ++ ttl :: lines fin')%list /\
      Forall (fun l => skipped l = true) comments /\
      skipped ttl = false.
Proof.
  induction fuel as [|fuel IH]; intros line fin ttl fin' H;
    cbn [skip_comments] in H; destruct (skipped line) eqn:S; try discriminate.
  - injection H as <- <-. exists []. repeat split; [constructor | assumption].
  - destruct (readline fin) as [line' fin1] eqn:R.
    destruct fin as [|c fin0].
    + injection R as <- <-.
      rewrite skip_comments_never_ends in H by (reflexivity || constructor).
      discriminate.
    + destruct (IH _ _ _ _ H) as (comments & E & F & T).
      exists (line :: comments). repeat split; [|now constructor|assumption].
      rewrite (readline_lines (String c fin0)), R. cbn [fst snd app].
      now rewrite E.
  - injection H as <- <-. exists []. repeat split; [constructor | assumption].
Qed.

(** The data loop reads the first [count] lines of what is left; they all
    exist. *)
Lemma data_loop_lines (count : nat) :
  forall (fin : string) (ax ax' : Axes) (seen seen' : list (Z * Z * Z)),
    data_loop log_ceil hsv_to_rgb count fin ax seen = Ok (ax', seen') ->
    (count <= List.length (lines fin))%nat /\
    map Ok seen' =
      (map Ok seen ++ map parse_triple (firstn count (lines fin)))%list.
Proof.
  induction count as [|count IH]; intros fin ax ax' seen seen' H.
  - cbn in H. injection H as <- <-. cbn. split; [lia | now rewrite app_nil_r].
  - cbn [data_loop] in H. destruct (readline fin) as [line fin'] eqn:R.
    destruct (parse_triple line) as [[[i j] p]|e|] eqn:P; cbn [bind] in H;
      try discriminate.
    destruct (float_add j marker_offset) as [x|e|]; cbn [bind] in H;
      try discriminate.
    destruct (float_add i marker_offset) as [y|e|]; cbn [bind] in H;
      try discriminate.
    destruct (color_of_proc log_ceil hsv_to_rgb p) as [c|e|]; cbn [bind] in H;
      try discriminate.
    destruct fin as [|c0 fin0].
    { injection R as <- <-. rewrite parse_triple_eof in P. discriminate. }
    apply IH in H as [Hlen H].
    rewrite (readline_lines (String c0 fin0)), R. cbn [fst snd].
    cbn [List.length firstn map]. split; [lia|].
    rewrite H, map_app, <- app_assoc. cbn [map app]. now rewrite P.
Qed.

(** X6. A completed run has read the file in this order: the comment
    lines, each starting with ['#']; the title, which is the first line
    that does not start with ['#'] and which keeps its line feed; the
    dimension line, which unpacks into [m], [n], [nz]; then at least [nz]
    further lines, of which the first [nz] unpack into the entries, in
    order. *)
Theorem completed_run_reads_in_order (fuel : nat) (file : string) (plot : Plot) :
  main log_ceil hsv_to_rgb fuel file = Ok plot ->
  exists (comments : list string) (dims : string) (data : list string),
    lines file = (comments ++ title plot :: dims :: data)%list /\
    Forall (fun line => skipped line = true) comments /\
    skipped (title plot) = false /\
    (exists t, title plot = t ++ nl) /\
    parse_triple dims = Ok (m plot, n plot, nz plot) /\
    (Z.to_nat (nz plot) <= List.length data)%nat /\
    map Ok (entries plot) = map parse_triple (firstn (Z.to_nat (nz plot)) data).
Proof.
  intros H. rewrite main_eq in H. unfold read_and_plot in H.
  destruct (readline file) as [line0 fin0] eqn:R0.
  destruct (skip_comments fuel line0 fin0) as [[ttl fin]|e|] eqn:S;
    cbn [bind] in H; try discriminate.
  destruct (readline fin) as [dims data] eqn:R1.
  destruct (parse_triple dims) as [[[rows cols] count]|e|] eqn:P;
    cbn [bind] in H; try discriminate.
  destruct (data_loop _ _ _ _ _ _) as [[ax' seen]|e|] eqn:D; cbn [bind] in H;
    try discriminate.
  injection H as <-. cbn [title m n nz entries].
  destruct file as [|c file'].
  { injection R0 as <- <-.
    rewrite skip_comments_never_ends in S by (reflexivity || constructor).
    discriminate. }
  destruct fin as [|c1 fin1].
  { injection R1 as <- <-. rewrite parse_triple_eof in P. discriminate. }
  destruct (skip_comments_skipped _ _ _ _ _ S) as (comments & E & F & T).
  apply data_loop_lines in D as [Hlen Hread].
  assert (L : lines (String c file')
              = (comments ++ ttl :: dims :: lines data)%list).
  { rewrite (readline_lines (String c file')), R0. cbn [fst snd].
    rewrite E, (readline_lines (String c1 fin1)), R1. reflexivity. }
  exists comments, dims, (lines data). repeat split; try assumption.
  now apply (lines_inner_terminated _ _ _ _ _ L).
Qed.

End RunStructure.

Lemma completed_run_reads_in_order_witness :
  exists plot (comments : list string) (dims : string) (data : list string),
    main log_ceil_sample hsv_to_rgb_hexcone 1 Samples.end_to_end = Ok plot /\
    Text.lines Samples.end_to_end = (comments ++ title plot :: dims :: data)%list /\
    Text.parse_triple dims = Ok (m plot, n plot, nz plot).
Proof.
  destruct (color_of_proc_ok log_ceil_sample hsv_to_rgb_hexcone 0) as [c0 E0];
    [split; [lia | reflexivity]|].
  destruct (color_of_proc_ok log_ceil_sample hsv_to_rgb_hexcone 1) as [c1 E1];
    [split; [lia | reflexivity]|].
  pose proof (end_to_end_run log_ceil_sample hsv_to_rgb_hexcone 1 c0 c1 (le_n 1) E0 E1) as R.
  destruct (completed_run_reads_in_order log_ceil_sample hsv_to_rgb_hexcone 1
              Samples.end_to_end _ R)
    as (comments & dims & data & L & _ & _ & _ & P & _).
  eexists. exists comments, dims, data. split; [exact R|]. split; assumption.
Defined.

(* ================================================================= *)
(** ** Lines that unpack *)

Section AcceptedLines.

Import Text.
Local Open Scope string_scope.

Lemma split_tokens_no_sep (sep : ascii) (s : string) :
  Forall (fun tok => no_char sep tok = true) (split sep s).
Proof.
  induction s as [|c s IH]; [repeat constructor|].
  cbn [split]. destruct (c =? sep)%char eqn:C.
  - constructor; [reflexivity | exact IH].
  - destruct (split sep s) as [|tok toks]; [repeat constructor; cbn; now rewrite C|].
    inversion IH as [|? ? Htok Htoks]; subst.
    constructor; [|assumption]. cbn. now rewrite C, Htok.
Qed.

Lemma split_no_sep (sep : ascii) (t : string) :
  no_char sep t = true -> split sep t = [t].
Proof.
  induction t as [|c t IH]; [reflexivity|]. cbn.
  intros H. apply andb_prop in H as [Hc Ht]. apply negb_true_iff in Hc.
  now rewrite Hc, (IH Ht).
Qed.

Lemma split_token_sep (sep : ascii) (t rest : string) :
  no_char sep t = true ->
  split sep (t ++ String sep rest) = t :: split sep rest.
Proof.
  induction t as [|c t IH]; cbn.
  - intros _. now rewrite Ascii.eqb_refl.
  - intros H. apply andb_prop in H as [Hc Ht]. apply negb_true_iff in Hc.
    now rewrite Hc, (IH Ht).
Qed.

(** X7. A line unpacks into three integers exactly when it is made of
    three tokens without a space, each an integer literal for [int],
    joined by single spaces. *)
Theorem parse_triple_accepts_iff (line : string) (a b c : Z) :
  parse_triple line = Ok (a, b, c) <->
  exists t1 t2 t3,
    line = t1 ++ String " " (t2 ++ String " " t3) /\
    no_char " " t1 = true /\ no_char " " t2 = true /\ no_char " " t3 = true /\
    int_literal t1 = Some a /\ int_literal t2 = Some b /\
    int_literal t3 = Some c.
Proof.
  split.
  - intros H. pose proof (split_tokens_no_sep " " line) as F.
    pose proof (join_split " " line) as J.
    unfold parse_triple in H.
    destruct (split " " line) as [|t1 [|t2 [|t3 [|t4 more]]]];
      unfold unpack3, int in H;
      repeat match type of H with
        | context [int_literal ?t] =>
            destruct (int_literal t) eqn:?; cbn [bind] in H
        end; try discriminate.
    injection H as -> -> ->.
    inversion F as [|? ? F1 F']; subst. inversion F' as [|? ? F2 F'']; subst.
    inversion F'' as [|? ? F3 _]; subst.
    exists t1, t2, t3. repeat split; auto.
  - intros (t1 & t2 & t3 & -> & N1 & N2 & N3 & H1 & H2 & H3).
    unfold parse_triple.
    rewrite (split_token_sep " " t1 _ N1), (split_token_sep " " t2 _ N2),
      (split_no_sep " " t3 N3).
    unfold unpack3, int. now rewrite H1, H2, H3.
Qed.

(** *** The line feed at the end of a line *)

Lemma rstrip_newline (s : string) : rstrip (s ++ nl) = rstrip s.
Proof.
  induction s as [|c s IH]; [reflexivity|].
  cbn [append rstrip]. now rewrite IH.
Qed.

Lemma strip_newline (s : string) : strip (s ++ nl) = strip s.
Proof.
  unfold strip. induction s as [|c s IH]; [reflexivity|].
  cbn [append lstrip]. destruct (int_space c); [exact IH|].
  change (String c (s ++ nl)) with (String c s ++ nl).
  apply rstrip_newline.
Qed.

Lemma int_literal_newline (s : string) : int_literal (s ++ nl) = int_literal s.
Proof. unfold int_literal. now rewrite strip_newline. Qed.

Lemma split_append_last (s : string) :
  split " " (s ++ nl) = append_last (split " " s) nl.
Proof.
  induction s as [|c s IH]; [reflexivity|].
  cbn [append split]. destruct (c =? " ")%char.
  - rewrite IH. pose proof (split_not_nil " " s) as N.
    now destruct (split " " s).
  - rewrite IH. pose proof (split_not_nil " " s) as N.
    destruct (split " " s) as [|tok [|tok' toks]]; [congruence| |]; reflexivity.
Qed.

Lemma append_last_literals (toks : list string) :
  map int_literal (append_last toks nl) = map int_literal toks.
Proof.
  induction toks as [|tok [|tok' toks] IH]; [reflexivity| |].
  - cbn. now rewrite int_literal_newline.
  - cbn [append_last map] in *. now rewrite IH.
Qed.

(** The unpacking succeeds exactly when there are three tokens and [int]
    accepts each of them. *)
Lemma unpack3_ok_iff (toks : list string) (a b c : Z) :
  unpack3 toks = Ok (a, b, c) <->
  map int_literal toks = [Some a; Some b; Some c].
Proof.
  destruct toks as [|t1 [|t2 [|t3 [|t4 more]]]]; unfold unpack3, int; cbn [map];
    repeat match goal with
      | |- context [int_literal ?t] => destruct (int_literal t)
      end;
    cbn [bind]; split; intros H; try discriminate H; congruence.
Qed.

Lemma unpack3_by_literals (toks toks' : list string) (v : Z * Z * Z) :
  map int_literal toks = map int_literal toks' ->
  unpack3 toks = Ok v -> unpack3 toks' = Ok v.
Proof.
  destruct v as [[a b] c]. intros E H.
  apply unpack3_ok_iff. rewrite <- E. now apply unpack3_ok_iff.
Qed.

(** X8. The line feed that [readline] leaves at the end of a line does
    not matter to the unpacking: a line with its line feed unpacks into
    three integers exactly when the line without it does, and into the
    same ones.  So the last line of a file may come without a line
    feed. *)
Theorem parse_triple_ignores_newline (line : string) (v : Z * Z * Z) :
  parse_triple (line ++ nl) = Ok v <-> parse_triple line = Ok v.
Proof.
  unfold parse_triple. rewrite split_append_last.
  split; apply unpack3_by_literals.
  - apply append_last_literals.
  - symmetry. apply append_last_literals.
Qed.

(** *** Stray spaces *)

Lemma rejected_token (toks : list string) (t : string) (v : Z * Z * Z) :
  In t toks -> int_literal t = None -> unpack3 toks <> Ok v.
Proof.
  destruct v as [[a b] c]. intros I N H. apply unpack3_ok_iff in H.
  apply (in_map int_literal) in I. rewrite H, N in I.
  cbn in I. intuition discriminate.
Qed.

(** A separator followed by the end of the text or by another separator
    leaves an empty token behind the first one. *)
Lemma split_empty_token (sep : ascii) (r : string) :
  hd "" (split sep r) = "" ->
  forall s, In "" (tl (split sep (s ++ String sep r))).
Proof.
  intros Hr. induction s as [|c s IH]; cbn [append split].
  - rewrite Ascii.eqb_refl. cbn [tl].
    destruct (split sep r) as [|tok toks] eqn:S; [now apply split_not_nil in S|].
    cbn in Hr. subst tok. now left.
  - destruct (c =? sep)%char.
    + cbn [tl]. destruct (split sep (s ++ String sep r)) as [|tok toks];
        [destruct IH | now right].
    + destruct (split sep (s ++ String sep r)) as [|tok toks];
        [destruct IH | exact IH].
Qed.

(** X12. Fields must be separated by exactly one space and nothing else
    may surround them on the line: a line that starts with a space, that
    has two spaces in a row, or that ends with a space (before its line
    feed or without one) never unpacks into three integers, because
    [split(' ')] then yields a token that [int] rejects. *)
Theorem stray_space_rejected (s s' : string) (v : Z * Z * Z) :
  parse_triple (String " " s) <> Ok v /\
  parse_triple (s ++ String " " (String " " s')) <> Ok v /\
  parse_triple (s ++ " ") <> Ok v /\
  parse_triple ((s ++ " ") ++ nl) <> Ok v.
Proof.
  assert (Last : parse_triple (s ++ " ") <> Ok v).
  { unfold parse_triple. apply (rejected_token _ ""); [|reflexivity].
    pose proof (split_empty_token " " "" eq_refl s) as I.
    destruct (split " " (s ++ " ")); [destruct I | now right]. }
  repeat split.
  - unfold parse_triple. apply (rejected_token _ ""); [now left | reflexivity].
  - unfold parse_triple. apply (rejected_token _ ""); [|reflexivity].
    pose proof (split_empty_token " " (String " " s') eq_refl s) as I.
    destruct (split " " (s ++ String " " (String " " s'))); [destruct I | now right].
  - exact Last.
  - intros H. apply Last. unfold parse_triple in *.
    rewrite split_append_last in H.
    apply (unpack3_by_literals _ _ v (append_last_literals _) H).
Qed.

End AcceptedLines.

(* ================================================================= *)
(** ** Text after the declared entries *)

Section AppendedText.

Import Text.
Local Open Scope string_scope.

Variable log_ceil : Z -> N.
Variable hsv_to_rgb : triple -> triple.

Lemma terminated_tail (c : ascii) (rest : string) :
  terminated (String c rest) = true ->
  (c = LF /\ rest = "") \/ (rest <> "" /\ terminated rest = true).
Proof.
  destruct rest as [|c' rest']; cbn [terminated].
  - intros H. apply Ascii.eqb_eq in H. now left.
  - intros H. right. split; [discriminate | exact H].
Qed.

(** Reading a line of a text whose lines all have their line feed is not
    disturbed by what is appended to the text. *)
Lemma readline_app (s extra : string) :
  s <> "" -> terminated s = true ->
  readline (s ++ extra) = (fst (readline s), snd (readline s) ++ extra) /\
  terminated (snd (readline s)) = true.
Proof.
  induction s as [|c rest IH]; [congruence|]. intros _ T.
  cbn [append readline]. destruct (c =? LF)%char eqn:C.
  - cbn [fst snd]. split; [reflexivity|].
    destruct (terminated_tail c rest T) as [[_ ->] | [_ T']]; [reflexivity | exact T'].
  - destruct (terminated_tail c rest T) as [[-> _] | [N T']].
    { now rewrite Ascii.eqb_refl in C. }
    destruct (IH N T') as [E T'']. rewrite E.
    destruct (readline rest) as [l r]. cbn [fst snd] in *. now split.
Qed.

Lemma skip_comments_app (extra : string) (fuel : nat) :
  forall line fin ttl fin' : string,
    terminated fin = true ->
    skip_comments fuel line fin = Ok (ttl, fin') ->
    skip_comments fuel line (fin ++ extra) = Ok (ttl, fin' ++ extra) /\
    terminated fin' = true.
Proof.
  induction fuel as [|fuel IH]; intros line fin ttl fin' T H;
    cbn [skip_comments] in *; destruct (skipped line) eqn:S; try discriminate.
  - injection H as <- <-. now split.
  - destruct fin as [|c fin0].
    + cbn [readline] in H.
      rewrite skip_comments_never_ends in H by (reflexivity || constructor).
      discriminate.
    + destruct (readline_app (String c fin0) extra) as [E T'];
        [discriminate | exact T |].
      rewrite E. destruct (readline (String c fin0)) as [line' fin1].
      cbn [fst snd] in *. now apply IH.
  - injection H as <- <-. now split.
Qed.

Lemma data_loop_app (extra : string) (count : nat) :
  forall (fin : string) (ax : Axes) (seen : list (Z * Z * Z))
         (r : Axes * list (Z * Z * Z)),
    terminated fin = true ->
    data_loop log_ceil hsv_to_rgb count fin ax seen = Ok r ->
    data_loop log_ceil hsv_to_rgb count (fin ++ extra) ax seen = Ok r.
Proof.
  induction count as [|count IH]; intros fin ax seen r T H; [exact H|].
  cbn [data_loop] in *. destruct fin as [|c fin0].
  - cbn [readline] in H. rewrite parse_triple_eof in H. discriminate.
  - destruct (readline_app (String c fin0) extra) as [E T'];
      [discriminate | exact T |].
    rewrite E. destruct (readline (String c fin0)) as [line fin'].
    cbn [fst snd] in *.
    destruct (parse_triple line) as [[[i j] p]|e|]; cbn [bind] in *;
      try discriminate.
    destruct (float_add j marker_offset) as [x|e|]; cbn [bind] in *;
      try discriminate.
    destruct (float_add i marker_offset) as [y|e|]; cbn [bind] in *;
      try discriminate.
    destruct (color_of_proc log_ceil hsv_to_rgb p) as [col|e|]; cbn [bind] in *;
      try discriminate.
    now apply IH.
Qed.

(** X9. The script never looks past the last declared entry: when every
    line of the file has its line feed and the run completes, the run on
    the file followed by any further text completes with the same
    result. *)
Theorem appended_text_is_ignored
        (fuel : nat) (file extra : string) (plot : Plot) :
  terminated file = true ->
  main log_ceil hsv_to_rgb fuel file = Ok plot ->
  main log_ceil hsv_to_rgb fuel (file ++ extra) = Ok plot.
Proof.
  intros T H. rewrite main_eq in *. unfold read_and_plot in *.
  destruct file as [|c file'].
  - cbn [readline] in H.
    rewrite skip_comments_never_ends in H by (reflexivity || constructor).
    discriminate.
  - destruct (readline_app (String c file') extra) as [E0 T0];
      [discriminate | exact T |].
    rewrite E0. destruct (readline (String c file')) as [line0 fin0].
    cbn [fst snd] in *.
    destruct (skip_comments fuel line0 fin0) as [[ttl fin]|e|] eqn:S;
      cbn [bind] in H; try discriminate.
    destruct (skip_comments_app extra fuel _ _ _ _ T0 S) as [S' T1].
    rewrite S'. cbn [bind]. destruct fin as [|c1 fin1].
    + cbn [readline] in H. rewrite parse_triple_eof in H. discriminate.
    + destruct (readline_app (String c1 fin1) extra) as [E1 T2];
        [discriminate | exact T1 |].
      rewrite E1. destruct (readline (String c1 fin1)) as [dims data].
      cbn [fst snd] in *.
      destruct (parse_triple dims) as [[[rows cols] count]|e|];
        cbn [bind] in *; try discriminate.
      destruct (data_loop _ _ _ data _ _) as [r|e|] eqn:D; cbn [bind] in H;
        try discriminate.
      now rewrite (data_loop_app extra _ _ _ _ _ T2 D).
Qed.

(** *** Where the squares lie *)

Lemma completed_run_drawn (fuel : nat) (file : string) (plot : Plot) :
  main log_ceil hsv_to_rgb fuel file = Ok plot ->
  xlim (ax plot) = (1, n plot) /\
  ylim (ax plot) = (m plot, 1) /\
  Forall2 (drawn log_ceil hsv_to_rgb) (entries plot) (patches (ax plot)).
Proof.
  intros H. rewrite main_eq in H. unfold read_and_plot in H.
  destruct (readline file) as [line0 fin0].
  destruct (skip_comments fuel line0 fin0) as [[ttl fin]|e|];
    cbn [bind] in H; try discriminate.
  destruct (readline fin) as [dims data].
  destruct (parse_triple dims) as [[[rows cols] count]|e|];
    cbn [bind] in H; try discriminate.
  destruct (data_loop _ _ _ _ _ _) as [[ax' seen]|e|] eqn:D; cbn [bind] in H;
    try discriminate.
  injection H as <-. cbn [ax entries m n].
  apply data_loop_draws in D
    as (Hx & Hy & new_entries & new_patches & E1 & E2 & _ & F).
  cbn [xlim ylim patches app] in *. subst seen. rewrite E2. auto.
Qed.

End AppendedText.

Section Squares.

Local Open Scope Qc_scope.

Lemma square_inside_cell (i j : Z) (c : triple) (x y : Qc) :
  covers (square i j c) x y ->
  Z2Qc j < x /\ x < Z2Qc j + 1 /\ Z2Qc i < y /\ y < Z2Qc i + 1.
Proof.
  unfold covers, square. cbn [rect_xy rect_width rect_height fst snd].
  rewrite marker_offset_value. unfold marker_size.
  intros (X1 & X2 & Y1 & Y2). repeat split; qc_linear.
Qed.

Lemma same_cell (a b : Z) (x : Qc) :
  Z2Qc a < x -> x < Z2Qc a + 1 -> Z2Qc b < x -> x < Z2Qc b + 1 -> a = b.
Proof.
  intros A1 A2 B1 B2.
  assert (H1 : Z2Qc a < Z2Qc (b + 1)).
  { rewrite Z2Qc_plus, Z2Qc_1. now apply Qclt_trans with x. }
  assert (H2 : Z2Qc b < Z2Qc (a + 1)).
  { rewrite Z2Qc_plus, Z2Qc_1. now apply Qclt_trans with x. }
  apply Z2Qc_lt in H1. apply Z2Qc_lt in H2. lia.
Qed.

(** X10. For row and column numbers below [2 ^ 31] in absolute value,
    every point of the square drawn for the entry [(i, j, p)] lies
    strictly inside the unit cell [j < x < j + 1], [i < y < i + 1]; hence
    the squares of two different such cells have no point in common,
    whatever their colours. *)
Theorem squares_stay_in_their_cells (i j : Z) (c : triple) (x y : Qc) :
  (Z.abs i < 2 ^ 31)%Z -> (Z.abs j < 2 ^ 31)%Z ->
  covers (square i j c) x y ->
  (Z2Qc j < x /\ x < Z2Qc j + 1 /\ Z2Qc i < y /\ y < Z2Qc i + 1) /\
  forall (i' j' : Z) (c' : triple),
    (Z.abs i' < 2 ^ 31)%Z -> (Z.abs j' < 2 ^ 31)%Z ->
    covers (square i' j' c') x y -> i' = i /\ j' = j.
Proof.
  intros _ _ H.
  pose proof (square_inside_cell i j c x y H) as (X1 & X2 & Y1 & Y2).
  split; [auto|]. intros i' j' c' _ _ H'.
  destruct (square_inside_cell i' j' c' x y H') as (X1' & X2' & Y1' & Y2').
  split; [now apply (same_cell i' i y) | now apply (same_cell j' j x)].
Qed.

(** X11. The limits are set to [[1, n]] and [[m, 1]], but the square of
    column [j] starts at [j + 0.1]: in a completed run the square of an
    entry in column [n] or beyond lies wholly past the x-limit [n], and
    the square of an entry in row [m] or beyond lies wholly past the
    y-limit [m], for row and column numbers below [2 ^ 31] in absolute
    value. *)
Theorem last_row_and_column_past_limits
        (log_ceil : Z -> N) (hsv_to_rgb : triple -> triple) (fuel : nat) (file : string) (plot : Plot) :
  main log_ceil hsv_to_rgb fuel file = Ok plot ->
  snd (xlim (ax plot)) = n plot /\
  fst (ylim (ax plot)) = m plot /\
  Forall2
    (fun (entry : Z * Z * Z) (r : Rectangle) =>
       let '(row, col, _) := entry in
       forall x y : Qc,
         covers r x y ->
         ((n plot <= col)%Z -> (Z.abs col < 2 ^ 31)%Z -> Z2Qc (n plot) < x) /\
         ((m plot <= row)%Z -> (Z.abs row < 2 ^ 31)%Z -> Z2Qc (m plot) < y))
    (entries plot) (patches (ax plot)).
Proof.
  intros H. destruct (completed_run_drawn log_ceil hsv_to_rgb fuel file plot H)
    as (Hx & Hy & F).
  rewrite Hx, Hy. split; [reflexivity|]. split; [reflexivity|].
  induction F as [|[[row col] proc] r es rs (c & _ & ->) F IH];
    constructor; [|exact IH].
  intros x y C.
  destruct (square_inside_cell row col c x y C) as (X1 & _ & Y1 & _).
  split; intros L _; apply Z2Qc_le in L.
  - now apply Qcle_lt_trans with (Z2Qc col).
  - now apply Qcle_lt_trans with (Z2Qc row).
Qed.

End Squares.

Lemma appended_text_is_ignored_witness :
  exists plot,
    main log_ceil_sample hsv_to_rgb_hexcone 1 Samples.end_to_end = Ok plot /\
    main log_ceil_sample hsv_to_rgb_hexcone 1 (Samples.end_to_end ++ "9 9 9 9 9")%string = Ok plot.
Proof.
  destruct (color_of_proc_ok log_ceil_sample hsv_to_rgb_hexcone 0) as [c0 E0];
    [split; [lia | reflexivity]|].
  destruct (color_of_proc_ok log_ceil_sample hsv_to_rgb_hexcone 1) as [c1 E1];
    [split; [lia | reflexivity]|].
  pose proof (end_to_end_run log_ceil_sample hsv_to_rgb_hexcone 1 c0 c1 (le_n 1) E0 E1) as R.
  eexists. split; [exact R|].
  apply (appended_text_is_ignored log_ceil_sample hsv_to_rgb_hexcone 1 Samples.end_to_end
           "9 9 9 9 9"); [reflexivity | exact R].
Defined.

Lemma squares_stay_in_their_cells_witness :
  ((Z2Qc 2 < Q2Qc 2.5 /\ Q2Qc 2.5 < Z2Qc 2 + 1 /\
    Z2Qc 1 < Q2Qc 1.5 /\ Q2Qc 1.5 < Z2Qc 1 + 1) /\
   forall (i' j' : Z) (c' : triple),
     (Z.abs i' < 2 ^ 31)%Z -> (Z.abs j' < 2 ^ 31)%Z ->
     covers (square i' j' c') (Q2Qc 2.5) (Q2Qc 1.5) -> i' = 1%Z /\ j' = 2%Z)%Qc.
Proof.
  apply (squares_stay_in_their_cells 1 2 (0, 0, 0)%Qc (Q2Qc 2.5) (Q2Qc 1.5));
    [reflexivity | reflexivity |].
  unfold covers. cbn [square rect_xy rect_width rect_height fst snd].
  repeat split; vm_compute; discriminate.
Defined.

Lemma last_row_and_column_past_limits_witness :
  exists plot,
    main log_ceil_sample hsv_to_rgb_hexcone 1 Samples.end_to_end = Ok plot /\
    snd (xlim (ax plot)) = n plot /\
    fst (ylim (ax plot)) = m plot.
Proof.
  destruct (color_of_proc_ok log_ceil_sample hsv_to_rgb_hexcone 0) as [c0 E0];
    [split; [lia | reflexivity]|].
  destruct (color_of_proc_ok log_ceil_sample hsv_to_rgb_hexcone 1) as [c1 E1];
    [split; [lia | reflexivity]|].
  pose proof (end_to_end_run log_ceil_sample hsv_to_rgb_hexcone 1 c0 c1 (le_n 1) E0 E1) as R.
  destruct (last_row_and_column_past_limits log_ceil_sample hsv_to_rgb_hexcone 1
              Samples.end_to_end _ R) as (Hx & Hy & _).
  eexists. split; [exact R|]. split; assumption.
Defined.

(* ================================================================= *)
(** ** Ids and entries at the limits of the floats *)

Section Limits.

Import Text.
Local Open Scope string_scope.

Variable log_ceil : Z -> N.
Variable hsv_to_rgb : triple -> triple.

(** X13. Two different ids that the script places exactly (both below
    [2 ^ 52], with a level that comes out as the exact ceiling of the
    logarithm, as for every id from 0 to [2 ^ 29 - 2]) get different
    wrapped hues, and hence different colours as soon as [hsv_to_rgb]
    separates the fully saturated colours of different hues of
    [[0, 1)]. *)
Theorem distinct_procs_distinct_hues (p q : Z) :
  exactly_placed log_ceil p -> exactly_placed log_ceil q -> p <> q ->
  (exists hp hq,
      hue_of_proc log_ceil p = Ok hp /\ hue_of_proc log_ceil q = Ok hq /\
      hp <> hq /\
      ((forall h k, (0 <= h)%Qc -> (h < 1)%Qc -> (0 <= k)%Qc -> (k < 1)%Qc ->
                    hsv_to_rgb (h, Z2Qc 1, Z2Qc 1) = hsv_to_rgb (k, Z2Qc 1, Z2Qc 1) ->
                    h = k) ->
       color_of_proc log_ceil hsv_to_rgb p <> color_of_proc log_ceil hsv_to_rgb q)) /\
  (forall id : Z, 0 <= id < 2 ^ 29 - 1 -> exactly_placed log_ceil id).
Proof.
  intros Hp Hq Hne. split; [|apply small_exactly_placed].
  destruct (placed_procs_distinct_hues log_ceil p q Hp Hq Hne)
    as (hp & hq & Ep & Eq & P0 & P1 & Q0 & Q1 & Hh).
  exists hp, hq. repeat split; try assumption.
  intros Hinj. unfold color_of_proc. rewrite Ep, Eq. cbn [bind].
  intros E. apply Hh. apply Hinj; try assumption. congruence.
Qed.

(** X14. From [2 ^ 1024 - 2 ^ 970] on an id has no colour: the mapper
    raises [OverflowError], at [denumerator / 2] when the level is above
    1024 and at the subtraction from [proc] otherwise. *)
Theorem huge_proc_overflows (proc : Z) :
  2 ^ 1024 - 2 ^ 970 <= proc ->
  color_of_proc log_ceil hsv_to_rgb proc = Raise OverflowError.
Proof. intros Hp. now apply color_of_proc_overflow. Qed.

Lemma data_loop_overflow (count : nat) :
  forall (k : nat) (fin : string) (ax : Axes) (seen : list (Z * Z * Z)),
    (k < count)%nat ->
    (forall k', (k' < k)%nat ->
                exists i j p,
                  parse_triple (nth k' (lines fin) "") = Ok (i, j, p) /\
                  Z.abs i < 2 ^ 31 /\ Z.abs j < 2 ^ 31 /\
                  succeeds (color_of_proc log_ceil hsv_to_rgb p)) ->
    (exists i j p,
        parse_triple (nth k (lines fin) "") = Ok (i, j, p) /\
        (float_limit <= Z.abs i \/ float_limit <= Z.abs j)) ->
    data_loop log_ceil hsv_to_rgb count fin ax seen = Raise OverflowError.
Proof.
  induction count as [|count IH]; intros k fin ax seen Hk Hgood Hfar; [lia|].
  destruct (readline fin) as [line fin'] eqn:R.
  destruct (readline_head fin line fin' R) as [Hl Ht].
  destruct k as [|k].
  - destruct Hfar as (i & j & p & P & Hij). rewrite <- Hl in P.
    cbn [data_loop]. rewrite R, P. cbn [bind].
    destruct (Z_lt_le_dec (Z.abs j) float_limit) as [Lj | Gj].
    + rewrite (float_add_ok j) by exact Lj. cbn [bind].
      destruct Hij as [Hi | Hj]; [|lia].
      now rewrite float_add_overflow by exact Hi.
    + now rewrite float_add_overflow by exact Gj.
  - destruct (Hgood 0%nat) as (i & j & p & P & Hi & Hj & c & C); [lia|].
    rewrite <- Hl in P.
    rewrite (data_loop_turn log_ceil hsv_to_rgb count fin line fin' ax seen
               i j p c R P Hi Hj C).
    apply (IH k); [lia | |].
    + intros k' Hk'. rewrite Ht, nth_tl. apply Hgood. lia.
    + now rewrite Ht, nth_tl.
Qed.

End Limits.

(** X15. A row or a column that no float can hold ends the run with
    [OverflowError], whatever the id on that line: when the header has
    been read and the data lines before line [k] unpack into rows and
    columns below [2 ^ 31] in absolute value and ids that have a colour,
    a line [k] among the [nz] declared ones that unpacks into a row or a
    column of absolute value [2 ^ 1024 - 2 ^ 970] or more makes the
    script raise that error at line 87 or 88, before the colour mapper is
    called. *)
Theorem far_entry_overflows
        (log_ceil : Z -> N) (hsv_to_rgb : triple -> triple)
        (fuel : nat) (file ttl fin dims data : string) (rows cols count : Z)
        (k : nat) :
  skip_comments fuel (fst (Text.readline file)) (snd (Text.readline file))
  = Ok (ttl, fin) ->
  Text.readline fin = (dims, data) ->
  Text.parse_triple dims = Ok (rows, cols, count) ->
  (k < Z.to_nat count)%nat ->
  (forall k', (k' < k)%nat ->
              exists i j p,
                Text.parse_triple (nth k' (Text.lines data) ""%string) = Ok (i, j, p) /\
                Z.abs i < 2 ^ 31 /\ Z.abs j < 2 ^ 31 /\
                succeeds (color_of_proc log_ceil hsv_to_rgb p)) ->
  (exists i j p,
      Text.parse_triple (nth k (Text.lines data) ""%string) = Ok (i, j, p) /\
      (2 ^ 1024 - 2 ^ 970 <= Z.abs i \/ 2 ^ 1024 - 2 ^ 970 <= Z.abs j)) ->
  main log_ceil hsv_to_rgb fuel file = Raise OverflowError.
Proof.
  intros Hskip Hdims Hparse Hk Hgood Hfar.
  rewrite main_eq. unfold read_and_plot.
  destruct (Text.readline file) as [line0 fin0]. cbn [fst snd] in Hskip.
  rewrite Hskip. cbn [bind]. rewrite Hdims, Hparse. cbn [bind].
  now rewrite (data_loop_overflow log_ceil hsv_to_rgb (Z.to_nat count) k data
                 _ _ Hk Hgood Hfar).
Qed.

Lemma distinct_procs_distinct_hues_witness :
  exists hp hq,
    hue_of_proc log_ceil_sample 2 = Ok hp /\ hue_of_proc log_ceil_sample 3 = Ok hq /\
    hp <> hq /\
    ((forall h k, (0 <= h)%Qc -> (h < 1)%Qc -> (0 <= k)%Qc -> (k < 1)%Qc ->
                  hsv_to_rgb_hexcone (h, Z2Qc 1, Z2Qc 1)
                  = hsv_to_rgb_hexcone (k, Z2Qc 1, Z2Qc 1) ->
                  h = k) ->
     color_of_proc log_ceil_sample hsv_to_rgb_hexcone 2
     <> color_of_proc log_ceil_sample hsv_to_rgb_hexcone 3).
Proof.
  apply (distinct_procs_distinct_hues log_ceil_sample hsv_to_rgb_hexcone 2 3).
  - split; [split; vm_compute; congruence | reflexivity].
  - split; [split; vm_compute; congruence | reflexivity].
  - lia.
Defined.

Lemma huge_proc_overflows_witness :
  color_of_proc log_ceil_sample hsv_to_rgb_hexcone (2 ^ 1024)
  = Raise OverflowError.
Proof.
  apply (huge_proc_overflows log_ceil_sample hsv_to_rgb_hexcone (2 ^ 1024)).
  vm_compute. discriminate.
Defined.

Lemma far_entry_overflows_witness :
  main log_ceil_sample hsv_to_rgb_hexcone 0 Samples.far_column
  = Raise OverflowError.
Proof.
  apply (far_entry_overflows log_ceil_sample hsv_to_rgb_hexcone 0 _
           ("Title" ++ Text.nl)%string
           ("1 1 1" ++ Text.nl ++ Samples.far_column_entry)%string
           ("1 1 1" ++ Text.nl)%string
           Samples.far_column_entry
           1 1 1 0).
  - reflexivity.
  - reflexivity.
  - reflexivity.
  - simpl. lia.
  - intros k' Hk'. lia.
  - exists 1, (2 ^ 1024), 0. split; [vm_compute; reflexivity|].
    right. vm_compute. discriminate.
Defined.

(* ================================================================= *)
(** ** What [int] accepts *)

Section IntLiterals.

Import Text.
Local Open Scope string_scope.

Lemma lstrip_blanks (pre t : string) :
  all_int_space pre = true -> lstrip (pre ++ t) = lstrip t.
Proof.
  induction pre as [|c pre IH]; [reflexivity|]. cbn.
  intros H. apply andb_prop in H as [Hc Hpre]. rewrite Hc. auto.
Qed.

Lemma rstrip_blanks (post : string) :
  all_int_space post = true -> rstrip post = "".
Proof.
  induction post as [|c post IH]; [reflexivity|]. cbn.
  intros H. apply andb_prop in H as [Hc Hpost]. now rewrite (IH Hpost), Hc.
Qed.

Lemma rstrip_app_blanks (t post : string) :
  all_int_space post = true -> rstrip (t ++ post) = rstrip t.
Proof.
  intros H. induction t as [|c t IH]; cbn [append rstrip].
  - now apply rstrip_blanks.
  - now rewrite IH.
Qed.

Lemma lstrip_all_blanks (t : string) :
  all_int_space t = true -> lstrip t = "".
Proof.
  induction t as [|c t IH]; [reflexivity|]. cbn.
  intros H. apply andb_prop in H as [Hc Ht]. rewrite Hc. auto.
Qed.

Lemma lstrip_app (t post : string) :
  lstrip t <> "" -> lstrip (t ++ post) = lstrip t ++ post.
Proof.
  induction t as [|c t IH]; [cbn; intros H; now elim H|].
  cbn [append lstrip].
  destruct (int_space c); [exact IH | reflexivity].
Qed.

Lemma lstrip_empty (t : string) : lstrip t = "" -> all_int_space t = true.
Proof.
  induction t as [|c t IH]; [reflexivity|]. cbn.
  destruct (int_space c); [exact IH | discriminate].
Qed.

Lemma strip_blanks (pre t post : string) :
  all_int_space pre = true -> all_int_space post = true ->
  strip (pre ++ t ++ post) = strip t.
Proof.
  intros Hpre Hpost. unfold strip. rewrite (lstrip_blanks pre _ Hpre).
  destruct (lstrip t) as [|c u] eqn:L.
  - apply lstrip_empty in L.
    assert (A : all_int_space (t ++ post) = true).
    { clear - L Hpost. induction t as [|c t IH]; [exact Hpost|].
      cbn in *. apply andb_prop in L as [Hc Ht]. rewrite Hc. auto. }
    now rewrite (lstrip_all_blanks _ A).
  - rewrite lstrip_app by (rewrite L; discriminate).
    rewrite L. now apply rstrip_app_blanks.
Qed.

(** A character that is no blank for [int] stays where it is. *)
Lemma lstrip_keeps (c : ascii) (t : string) :
  int_space c = false -> no_char c (lstrip t) = no_char c t.
Proof.
  intros Hc. induction t as [|d t IH]; [reflexivity|]. cbn [lstrip].
  destruct (int_space d) eqn:D; [|reflexivity].
  rewrite IH. cbn [no_char].
  destruct (d =? c)%char eqn:E; [|reflexivity].
  apply Ascii.eqb_eq in E. congruence.
Qed.

Lemma rstrip_keeps (c : ascii) (t : string) :
  int_space c = false -> no_char c (rstrip t) = no_char c t.
Proof.
  intros Hc. induction t as [|d t IH]; [reflexivity|]. cbn [rstrip].
  destruct (rstrip t) as [|e u] eqn:R.
  - cbn [no_char] in *. rewrite <- IH, andb_true_r.
    destruct (int_space d) eqn:D; cbn [no_char]; [|now rewrite andb_true_r].
    destruct (d =? c)%char eqn:E; [|reflexivity].
    apply Ascii.eqb_eq in E. congruence.
  - cbn [no_char] in *. now rewrite IH.
Qed.

(** A character that is neither a digit nor an underscore stops the
    reading of the digits. *)
Lemma digits_stop (c : ascii) (t : string) :
  is_digit c = false -> (c =? "_")%char = false ->
  no_char c t = false ->
  forall (acc : Z) (b : bool) (count : Z), digits t acc b count = None.
Proof.
  intros Hd Hu. induction t as [|d t IH]; [discriminate|].
  cbn [no_char digits]. intros H acc b count.
  destruct (d =? c)%char eqn:E.
  - apply Ascii.eqb_eq in E. subst d. now rewrite Hd, Hu.
  - cbn in H. destruct (is_digit d); [now apply IH|].
    destruct (d =? "_")%char; [|reflexivity].
    destruct b; [now apply IH | reflexivity].
Qed.

(** The separators FS, GS, RS and US are no blanks, no digits and no
    signs. *)
Lemma separator_codes (c : ascii) :
  (28 <= nat_of_ascii c <= 31)%nat ->
  int_space c = false /\ is_space c = true /\ is_digit c = false /\
  (c =? "_")%char = false /\ (c =? "+")%char = false /\ (c =? "-")%char = false.
Proof.
  destruct c as [[] [] [] [] [] [] [] []]; cbv; intros [H1 H2];
    try (repeat split; reflexivity); exfalso; lia.
Qed.

(** X16. What surrounds and what spoils an integer literal.  The blanks
    that [int] drops on both sides of a token (tab, LF, VT, FF, CR, space,
    U+0085, U+00A0) do not change its value, so the line feed at the end
    of a line and a no-break space around a number are harmless.  The
    separators FS, GS, RS and US (codes 28 to 31), which [str.split()]
    takes for blanks, are not dropped: a token that holds one of them is
    refused, and so is any line with such a token. *)
Theorem int_blanks_and_separators :
  (forall pre t post : string,
      all_int_space pre = true -> all_int_space post = true ->
      int_literal (pre ++ t ++ post) = int_literal t) /\
  (forall (c : ascii) (t : string),
      (28 <= nat_of_ascii c <= 31)%nat -> no_char c t = false ->
      is_space c = true /\ int_literal t = None /\
      forall (line : string) (v : Z * Z * Z),
        In t (split " " line) -> parse_triple line <> Ok v).
Proof.
  split.
  - intros pre t post Hpre Hpost. unfold int_literal.
    now rewrite (strip_blanks pre t post Hpre Hpost).
  - intros c t Hc Ht.
    destruct (separator_codes c Hc) as (Hs & Hsp & Hd & Hu & Hplus & Hminus).
    assert (N : int_literal t = None).
    { unfold int_literal, strip.
      assert (K : no_char c (rstrip (lstrip t)) = false).
      { now rewrite (rstrip_keeps c _ Hs), (lstrip_keeps c _ Hs). }
      destruct (rstrip (lstrip t)) as [|d u]; [reflexivity|].
      destruct (d =? "+")%char eqn:P; [|destruct (d =? "-")%char eqn:M].
      - apply Ascii.eqb_eq in P. subst d. cbn [no_char] in K.
        rewrite Ascii.eqb_sym, Hplus in K. cbn in K.
        now rewrite (digits_stop c u Hd Hu K).
      - apply Ascii.eqb_eq in M. subst d. cbn [no_char] in K.
        rewrite Ascii.eqb_sym, Hminus in K. cbn in K.
        now rewrite (digits_stop c u Hd Hu K).
      - now rewrite (digits_stop c _ Hd Hu K). }
    split; [exact Hsp|]. split; [exact N|].
    intros line v I. unfold parse_triple. now apply (rejected_token _ t).
Qed.

(** Reading a run of digits: the limit on their number decides. *)
Lemma digits_of_digits (t : string) :
  all_digits t = true -> t <> "" ->
  forall (acc : Z) (b : bool) (count : Z),
    (exists z, digits t acc b count = Some z) <->
    count + Z.of_nat (String.length t) <= int_max_str_digits.
Proof.
  induction t as [|c t IH]; [congruence|]. intros H _ acc b count.
  cbn [all_digits] in H. apply andb_prop in H as [Hc Ht].
  cbn [digits String.length]. rewrite Hc.
  destruct t as [|d t'].
  - cbn [digits andb String.length]. split.
    + intros [z E]. destruct (count + 1 <=? int_max_str_digits)%Z eqn:L;
        [apply Z.leb_le in L; lia | discriminate].
    + intros L. replace (count + 1 <=? int_max_str_digits)%Z with true
        by (symmetry; apply Z.leb_le; lia).
      now eexists.
  - rewrite (IH Ht) by discriminate. cbn [String.length]. lia.
Qed.

Lemma all_digits_no_space (t : string) : all_digits t = true -> no_space t = true.
Proof.
  induction t as [|c t IH]; [reflexivity|]. cbn.
  intros H. apply andb_prop in H as [Hc Ht].
  now rewrite (digit_not_space c Hc), (IH Ht).
Qed.

Lemma digit_no_sign (c : ascii) :
  is_digit c = true -> (c =? "+")%char = false /\ (c =? "-")%char = false.
Proof.
  destruct c as [[] [] [] [] [] [] [] []]; cbv; intros H;
    first [split; reflexivity | discriminate H].
Qed.

(** X17. The limit on the length of a number: a token made of decimal
    digits only is accepted by [int] exactly when it has at most 4300 of
    them, leading zeros counted; a line with a longer run of digits as
    one of its tokens never unpacks. *)
Theorem int_digit_limit (t : string) :
  all_digits t = true -> t <> "" ->
  ((exists z, int_literal t = Some z) <->
   (String.length t <= 4300)%nat) /\
  ((4300 < String.length t)%nat ->
   forall (line : string) (v : Z * Z * Z),
     In t (split " " line) -> parse_triple line <> Ok v).
Proof.
  intros H Hne.
  assert (E : int_literal t = digits t 0 false 0).
  { unfold int_literal.
    rewrite (no_space_strip t (all_digits_no_space t H)).
    destruct t as [|c t']; [congruence|].
    cbn [all_digits] in H. apply andb_prop in H as [Hc _].
    destruct (digit_no_sign c Hc) as [-> ->]. reflexivity. }
  assert (L : (exists z, int_literal t = Some z) <->
              (String.length t <= 4300)%nat).
  { rewrite E, (digits_of_digits t H Hne). unfold int_max_str_digits. lia. }
  split; [exact L|].
  intros Hlong line v I. unfold parse_triple.
  apply (rejected_token _ t); [exact I|].
  destruct (int_literal t) as [z|] eqn:D; [|reflexivity].
  exfalso. assert (String.length t <= 4300)%nat by (apply L; now exists z). lia.
Qed.

End IntLiterals.

Lemma int_digit_limit_witness :
  (exists z, Text.int_literal "007" = Some z) <-> (String.length "007" <= 4300)%nat.
Proof.
  apply (int_digit_limit "007"); [reflexivity | discriminate].
Defined.
